(** * dfctl-go: the SDK lifecycle core of [main.go]

    A shallow embedding of the version manager: version parsing, the
    artifact name and download step, extraction of the release archive,
    the inventory of installed versions and the [current] link.

    The operating system, the network and the third-party packages the
    program calls (Go's [strings], [path], [os], [compress/gzip],
    [archive/tar], [net/http]; [afero]; [Masterminds/semver] v1.5.0) are
    modelled next to the functions of [main.go] that use them. *)

From Stdlib Require Import ZArith NArith Ascii DecimalString DecimalN DecimalPos.
From Stdlib Require Strings.Byte.
From stdpp Require Import gmap strings list sorting.

Local Open Scope N_scope.

(** ** Go's [strings] package *)

Module strings.

(** [strings.Split(s, sep)] for a one-byte separator: the pieces between
    the separators, never an empty slice. *)
Fixpoint Split (sep : ascii) (s : string) : list string :=
  match s with
  | EmptyString => [EmptyString]
  | String c s' =>
      if Ascii.eqb c sep then EmptyString :: Split sep s'
      else match Split sep s' with
           | [] => [String c EmptyString]
           | x :: xs => String c x :: xs
           end
  end.

(** [strings.Join(elems, sep)]. *)
Definition Join (elems : list string) (sep : string) : string :=
  String.concat sep elems.

Fixpoint CutPrefix (s prefix : string) {struct prefix} : option string :=
  match prefix with
  | EmptyString => Some s
  | String p prefix' =>
      match s with
      | EmptyString => None
      | String c s' => if Ascii.eqb c p then CutPrefix s' prefix' else None
      end
  end.

Definition HasPrefix (s prefix : string) : bool :=
  match CutPrefix s prefix with Some _ => true | None => false end.

(** [strings.TrimPrefix(s, prefix)]: [s] without the leading [prefix], or
    [s] itself when it does not start with it. *)
Definition TrimPrefix (s prefix : string) : string :=
  match CutPrefix s prefix with Some r => r | None => s end.

(** The longest prefix of [s] whose bytes satisfy [f], and the rest. *)
Fixpoint span (f : ascii → bool) (s : string) : string * string :=
  match s with
  | EmptyString => (EmptyString, EmptyString)
  | String c s' =>
      if f c then let '(a, b) := span f s' in (String c a, b)
      else (EmptyString, s)
  end.

Fixpoint all (f : ascii → bool) (s : string) : bool :=
  match s with
  | EmptyString => true
  | String c s' => f c && all f s'
  end.

End strings.

(** ** Go's [path] and [path/filepath] packages (Unix) *)

Module filepath.

Definition Separator : ascii := "/"%char.

Definition IsAbs (p : string) : bool :=
  match p with String c _ => Ascii.eqb c Separator | _ => false end.

(** The element stack of [Clean]: [out] is kept in reverse.  A [..]
    removes the element before it; at the start of a rooted path it is
    dropped, at the start of a relative path it is kept. *)
Fixpoint clean_elems (rooted : bool) (out : list string) (elems : list string)
  : list string :=
  match elems with
  | [] => rev out
  | e :: rest =>
      if bool_decide (e = "" ∨ e = ".") then clean_elems rooted out rest
      else if bool_decide (e = "..") then
        match out with
        | top :: out' =>
            if bool_decide (top = "..") then clean_elems rooted (e :: out) rest
            else clean_elems rooted out' rest
        | [] =>
            if rooted then clean_elems rooted [] rest
            else clean_elems rooted [e] rest
        end
      else clean_elems rooted (e :: out) rest
  end.

(** [filepath.Clean] (the same function as [path.Clean] on Unix). *)
Definition Clean (p : string) : string :=
  let rooted := IsAbs p in
  let out := clean_elems rooted [] (strings.Split Separator p) in
  if rooted then "/" +:+ strings.Join out "/"
  else match out with
       | [] => "."
       | _ => strings.Join out "/"
       end.

(** [filepath.Join] and [path.Join]: leading empty elements are ignored,
    the rest is joined with the separator and cleaned; the result is
    empty only when every element is. *)
Fixpoint Join (elem : list string) : string :=
  match elem with
  | [] => ""
  | e :: rest =>
      if bool_decide (e = "") then Join rest
      else Clean (strings.Join elem "/")
  end.

Fixpoint drop_trailing_empty (l : list string) : list string :=
  match l with
  | [] => []
  | e :: rest =>
      match drop_trailing_empty rest with
      | [] => if bool_decide (e = "") then [] else [e]
      | rest' => e :: rest'
      end
  end.

(** [path.Base]: the last element of the path, after removing trailing
    slashes; ["."] for the empty path and ["/"] for a path of slashes. *)
Definition Base (p : string) : string :=
  if bool_decide (p = "") then "."
  else match last (drop_trailing_empty (strings.Split Separator p)) with
       | None => "/"
       | Some e => e
       end.

End filepath.

(** ** Errors

    Go's [error] values, as far as the program tells them apart. *)

Inductive errno : Set :=
  | ENOENT | ENOTDIR | EEXIST | EISDIR | ELOOP | ENOTEMPTY | EINVAL | EACCES.

Inductive error : Type :=
  | errOnlyOsFsSupported
  | errNoCurrentVersion
  | ErrVersionNotInstalled
  | ErrInvalidSemVer                          (* semver.ErrInvalidSemVer *)
  | ErrVersionSegment (seg : string)          (* "Error parsing version segment" *)
  | io_ErrUnexpectedEOF
  | io_EOF
  | gzip_ErrHeader
  | PathError (op : string) (e : errno)       (* os.PathError, os.LinkError *)
  | ExternalError (msg : string)              (* tar, flate, net/http, url *)
  | Errorf (msg : string) (cause : error).    (* fmt.Errorf around a cause *)

Global Instance errno_eq_dec : EqDecision errno.
Proof. solve_decision. Defined.

Global Instance byte_eq_dec : EqDecision Byte.byte := Stdlib.Strings.Byte.byte_eq_dec.

Global Instance error_eq_dec : EqDecision error.
Proof. solve_decision. Defined.

(** ** [Masterminds/semver] v1.5.0: [NewVersion] and [String] *)

Module semver2.

Record Version := mkVersion {
  major : N; minor : N; patch : N;
  pre : string; metadata : string; original : string }.

Definition is_digit (c : ascii) : bool :=
  let n := N_of_ascii c in (48 <=? n) && (n <=? 57).

Definition is_ident_char (c : ascii) : bool :=
  let n := N_of_ascii c in
  is_digit c || ((65 <=? n) && (n <=? 90)) || ((97 <=? n) && (n <=? 122))
  || Ascii.eqb c "-".

Definition is_ident_or_dot (c : ascii) : bool :=
  is_ident_char c || Ascii.eqb c ".".

(** [[0-9]+]. *)
Definition match_number (s : string) : option (string * string) :=
  let '(ds, rest) := strings.span is_digit s in
  if bool_decide (ds = "") then None else Some (ds, rest).

(** [(\.[0-9]+)?]: the text of the group, with its dot; empty when the
    group does not take part in the match. *)
Definition match_dot_number (s : string) : string * string :=
  match s with
  | String "." s' =>
      match match_number s' with
      | Some (ds, rest) => (String "." ds, rest)
      | None => ("", s)
      end
  | _ => ("", s)
  end.

(** A dotted identifier list, [ID(\.ID)?...] with [ID = [0-9A-Za-z\-]+]:
    every dot-separated piece is a non-empty run of identifier bytes. *)
Definition dotted_idents (s : string) : bool :=
  forallb (λ piece, negb (bool_decide (piece = ""))
                    && strings.all is_ident_char piece)
          (strings.Split "." s).

(** The optional group of a dotted identifier list behind the byte [c]
    (a hyphen for the pre-release, a plus for the metadata).  What
    follows the group in [SemVerRegex] never starts with an identifier
    byte or a dot, so the group takes the whole run of such bytes or
    the match fails. *)
Definition match_tagged (c : ascii) (s : string) : option (string * string) :=
  match s with
  | String c' s' =>
      if Ascii.eqb c' c then
        let '(ids, rest) := strings.span is_ident_or_dot s' in
        if dotted_idents ids then Some (ids, rest) else None
      else Some ("", s)
  | EmptyString => Some ("", s)
  end.

(** [versionRegex.FindStringSubmatch]: groups 1, 2, 3, 5 and 8 of the
    anchored [SemVerRegex], an optional [v], the major number, two
    optional dotted numbers, the pre-release and the metadata. *)
Definition FindStringSubmatch (v : string)
  : option (string * string * string * string * string) :=
  '(m1, r1) ← match_number (strings.TrimPrefix v "v");
  let '(m2, r2) := match_dot_number r1 in
  let '(m3, r3) := match_dot_number r2 in
  '(m5, r4) ← match_tagged "-" r3;
  '(m8, r5) ← match_tagged "+" r4;
  if bool_decide (r5 = "") then Some (m1, m2, m3, m5, m8) else None.

(** [strconv.ParseInt(s, 10, 64)] on an unsigned decimal numeral: a
    syntax error, a range error past [2^63 - 1], or the value. *)
Definition ParseInt (s : string) : option N :=
  if bool_decide (s = "") then None
  else match NilEmpty.uint_of_string s with
       | None => None
       | Some d => let n := N.of_uint d in
                   if n <? 2 ^ 63 then Some n else None
       end.

Definition parse_segment (m : string) : error + N :=
  if bool_decide (m = "") then inr 0
  else match ParseInt (strings.TrimPrefix m ".") with
       | Some n => inr n
       | None => inl (ErrVersionSegment m)
       end.

Definition NewVersion (v : string) : error + Version :=
  match FindStringSubmatch v with
  | None => inl ErrInvalidSemVer
  | Some (m1, m2, m3, m5, m8) =>
      match ParseInt m1 with
      | None => inl (ErrVersionSegment m1)
      | Some ma =>
          match parse_segment m2 with
          | inl e => inl e
          | inr mi =>
              match parse_segment m3 with
              | inl e => inl e
              | inr pa => inr (mkVersion ma mi pa m5 m8 v)
              end
          end
      end
  end.

(** [%d] of a non-negative [int64]. *)
Definition fmt_d (n : N) : string := NilEmpty.string_of_uint (N.to_uint n).

(** The [String] method: [major.minor.patch], then [-pre] and
    [+metadata] when present. *)
Definition String (v : Version) : string :=
  fmt_d (major v) +:+ "." +:+ fmt_d (minor v) +:+ "." +:+ fmt_d (patch v)
  +:+ (if bool_decide (pre v = "") then "" else "-" +:+ pre v)
  +:+ (if bool_decide (metadata v = "") then "" else "+" +:+ metadata v).

End semver2.

(** ** [main.go]: versions *)

(** [type Version string]. *)
Abbreviation Version := string.

(** [func ParseVersion(s string) (Version, error)]. *)
Definition ParseVersion (s : string) : error + Version :=
  match semver2.NewVersion s with
  | inl err => inl err
  | inr v => inr (semver2.String v)
  end.

(** [func (v Version) Number() string]. *)
Definition Number (v : Version) : string := strings.TrimPrefix v "v".

(** [func (v Version) String() string]. *)
Definition Version_String (v : Version) : string := v.

(** ** The operating-system filesystem behind [afero.OsFs]

    A tree of directories, regular files and symbolic links, keyed by the
    absolute location (the list of names from the root; the root itself
    is always a directory and has no entry), and what the kernel knows
    of the process: its working directory, its umask and whether it is
    privileged.

    Where the program makes or rewrites a node ([Mkdir], [OpenFile]) the
    kernel's rules are followed: the mode asked for is stored without
    the bits of the umask, a new entry needs write and search
    permission on its directory, and an existing file is opened for
    writing only with write permission on it; a privileged process is
    refused nothing.  Every node is taken to belong to the user of the
    process, so the owner bits of a mode are the ones that decide; the
    root directory alone belongs to the superuser, and only a
    privileged process makes entries in it.  Looking a path up is not
    subject to permission; quotas, setuid bits and access control lists
    are outside the model. *)

Module os.

Inductive node : Type :=
  | Dir (perm : N)
  | File (perm : N) (data : list Byte.byte)
  | Symlink (target : string).

Global Instance node_eq_dec : EqDecision node.
Proof. solve_decision. Defined.

Record state := mkProcess {
  tree : gmap (list string) node;
  cwd : list string;
  umask : N;
  superuser : bool }.

(** The state of an unprivileged process with the usual umask [022]. *)
Definition mkState (t : gmap (list string) node) (d : list string) : state :=
  mkProcess t d 18 false.

Definition ModePerm : N := 511.

(** The permission bits of a new node: those asked for, without the
    bits of the umask [um]. *)
Definition masked (um perm : N) : N := N.land (N.ldiff perm um) ModePerm.

Definition create_mode (s : state) (perm : N) : N := masked (umask s) perm.

(** Whether the process may use a node of mode [perm] in the ways
    [bits] (of the owner: 256 to read, 128 to write, 64 to search a
    directory). *)
Definition permits (s : state) (perm bits : N) : bool :=
  superuser s || (N.land perm bits =? bits).

Definition is_dir (n : node) : bool :=
  match n with Dir _ => true | _ => false end.

Definition lookup (t : gmap (list string) node) (loc : list string) : option node :=
  match loc with
  | [] => Some (Dir 493)
  | _ => t !! loc
  end.

(** The names of a path: empty pieces (doubled or trailing slashes) do
    not count. *)
Definition elems (p : string) : list string :=
  filter (λ e, e ≠ "") (strings.Split "/" p).

(** Path resolution as the kernel does it, from the directory [cur]:
    [.] stays, [..] goes to the parent, a symbolic link is replaced by
    its target (at most [fuel] times, then [ELOOP]); every name but the
    last must lead to a directory.  The result is the location of the
    last name, which need not exist; a link in last position is
    followed only when [follow] is set. *)
Fixpoint walk (fuel : nat) (t : gmap (list string) node) (follow : bool)
  : list string → list string → errno + list string :=
  fix go (cur : list string) (names : list string) {struct names} :=
    match names with
    | [] => inr cur
    | e :: rest =>
        if bool_decide (e = ".") then go cur rest
        else if bool_decide (e = "..") then go (removelast cur) rest
        else
          let loc := cur ++ [e] in
          match t !! loc with
          | None => match rest with [] => inr loc | _ => inl ENOENT end
          | Some (Dir _) => go loc rest
          | Some (File _ _) => match rest with [] => inr loc | _ => inl ENOTDIR end
          | Some (Symlink target) =>
              if bool_decide (rest = []) && negb follow then inr loc
              else match fuel with
                   | O => inl ELOOP
                   | S fuel' =>
                       if bool_decide (target = "") then inl ENOENT
                       else walk fuel' t follow
                              (if filepath.IsAbs target then [] else cur)
                              (elems target ++ rest)
                   end
          end
    end.

Definition MAXSYMLINKS : nat := 40.

Definition resolve (s : state) (follow : bool) (p : string) : errno + list string :=
  if bool_decide (p = "") then inl ENOENT
  else walk MAXSYMLINKS (tree s) follow
         (if filepath.IsAbs p then [] else cwd s) (elems p).

(** [os.Stat] and [os.Lstat]. *)
Definition stat_gen (follow : bool) (s : state) (p : string) : errno + node :=
  match resolve s follow p with
  | inl e => inl e
  | inr loc => match lookup (tree s) loc with
               | Some n => inr n
               | None => inl ENOENT
               end
  end.

Definition Stat := stat_gen true.
Definition Lstat := stat_gen false.

Definition with_tree (s : state) (t : gmap (list string) node) : state :=
  mkProcess t (cwd s) (umask s) (superuser s).

(** Whether the process may make an entry in the directory at [dir]:
    it needs to write and to search it. *)
Definition may_create_in (s : state) (dir : list string) : bool :=
  match dir with
  | [] => superuser s
  | _ => match tree s !! dir with
         | Some (Dir perm) => permits s perm 192
         | _ => false
         end
  end.

(** [os.Mkdir]: [mkdir(2)]. *)
Definition Mkdir (s : state) (p : string) (perm : N) : state * option error :=
  match resolve s false p with
  | inl e => (s, Some (PathError "mkdir" e))
  | inr loc =>
      match lookup (tree s) loc with
      | Some _ => (s, Some (PathError "mkdir" EEXIST))
      | None =>
          if may_create_in s (removelast loc)
          then (with_tree s (<[loc := Dir (create_mode s perm)]> (tree s)), None)
          else (s, Some (PathError "mkdir" EACCES))
      end
  end.

Definition mkpath (rooted : bool) (names : list string) : string :=
  (if rooted then "/" else "") +:+ strings.Join names "/".

(** [os.MkdirAll]: nothing to do when the path is a directory already;
    otherwise the parent is made first (when the path has one beside
    the root), then the directory itself.  [rnames] holds the names of
    the path, last name first. *)
Fixpoint MkdirAll_names (s : state) (rooted : bool) (rnames : list string)
    (perm : N) : state * option error :=
  let p := mkpath rooted (rev rnames) in
  match Stat s p with
  | inr n =>
      if is_dir n then (s, None) else (s, Some (PathError "mkdir" ENOTDIR))
  | inl _ =>
      let '(s1, r) :=
        match rnames with
        | _ :: parent =>
            match parent with
            | [] => (s, None)
            | _ => MkdirAll_names s rooted parent perm
            end
        | [] => (s, None)
        end in
      match r with
      | Some err => (s1, Some err)
      | None =>
          match Mkdir s1 p perm with
          | (s2, None) => (s2, None)
          | (s2, Some err) =>
              match Lstat s2 p with
              | inr (Dir _) => (s2, None)
              | _ => (s2, Some err)
              end
          end
      end
  end.

Definition MkdirAll (s : state) (p : string) (perm : N) : state * option error :=
  if bool_decide (elems p = []) then
    match Stat s p with
    | inr n => if is_dir n then (s, None) else (s, Some (PathError "mkdir" ENOTDIR))
    | inl e => (s, Some (PathError "mkdir" e))
    end
  else MkdirAll_names s (filepath.IsAbs p) (rev (elems p)) perm.

(** [os.OpenFile(p, O_CREATE|O_TRUNC|O_WRONLY, perm)]: [open(2)].  The
    location of the opened file: an existing file, which the process
    must be allowed to write, is emptied and keeps its mode; a new one
    is made in its directory with [perm] less the umask. *)
Definition OpenFile_create_trunc (s : state) (p : string) (perm : N)
  : state * (error + list string) :=
  match resolve s true p with
  | inl e => (s, inl (PathError "open" e))
  | inr loc =>
      match lookup (tree s) loc with
      | Some (File perm0 _) =>
          if permits s perm0 128
          then (with_tree s (<[loc := File perm0 []]> (tree s)), inr loc)
          else (s, inl (PathError "open" EACCES))
      | Some (Dir _) => (s, inl (PathError "open" EISDIR))
      | Some (Symlink _) => (s, inl (PathError "open" ELOOP))
      | None =>
          if may_create_in s (removelast loc)
          then (with_tree s (<[loc := File (create_mode s perm) []]> (tree s)),
                inr loc)
          else (s, inl (PathError "open" EACCES))
      end
  end.

(** Writing [data] to the file opened at [loc]. *)
Definition write (s : state) (loc : list string) (data : list Byte.byte) : state :=
  match tree s !! loc with
  | Some (File perm old) =>
      with_tree s (<[loc := File perm (old ++ data)]> (tree s))
  | _ => s
  end.

Fixpoint child_name (dir k : list string) : option string :=
  match dir, k with
  | [], [name] => Some name
  | d :: dir', x :: k' => if decide (d = x) then child_name dir' k' else None
  | _, _ => None
  end.

(** The entries of the directory at [dir], in no particular order. *)
Definition children (t : gmap (list string) node) (dir : list string)
  : list (string * node) :=
  omap (λ kn, name ← child_name dir kn.1; Some (name, kn.2)) (map_to_list t).

(** [os.Remove]: unlinks a file or a link, removes an empty directory. *)
Definition Remove (s : state) (p : string) : state * option error :=
  match resolve s false p with
  | inl e => (s, Some (PathError "remove" e))
  | inr loc =>
      match tree s !! loc with
      | None => (s, Some (PathError "remove" (if bool_decide (loc = []) then EINVAL else ENOENT)))
      | Some (Dir _) =>
          match children (tree s) loc with
          | [] => (with_tree s (delete loc (tree s)), None)
          | _ => (s, Some (PathError "remove" ENOTEMPTY))
          end
      | Some _ => (with_tree s (delete loc (tree s)), None)
      end
  end.

(** [os.Symlink(oldname, newname)]. *)
Definition Symlink_ (s : state) (oldname newname : string) : state * option error :=
  match resolve s false newname with
  | inl e => (s, Some (PathError "symlink" e))
  | inr loc =>
      match lookup (tree s) loc with
      | Some _ => (s, Some (PathError "symlink" EEXIST))
      | None => (with_tree s (<[loc := Symlink oldname]> (tree s)), None)
      end
  end.

(** [os.Readlink]. *)
Definition Readlink (s : state) (p : string) : error + string :=
  match resolve s false p with
  | inl e => inl (PathError "readlink" e)
  | inr loc =>
      match lookup (tree s) loc with
      | Some (Symlink target) => inr target
      | Some _ => inl (PathError "readlink" EINVAL)
      | None => inl (PathError "readlink" ENOENT)
      end
  end.

(** [os.FileInfo], as far as the program looks at it. *)
Record FileInfo := mkFileInfo { Name : string; IsDir : bool }.

(** [Readdir(-1)] on the directory opened at [p]: one
    [Lstat] result per entry. *)
Definition Readdir (s : state) (p : string) : error + list FileInfo :=
  match resolve s true p with
  | inl e => inl (PathError "open" e)
  | inr loc =>
      match lookup (tree s) loc with
      | Some (Dir _) =>
          inr (map (λ kn, mkFileInfo kn.1 (is_dir kn.2)) (children (tree s) loc))
      | Some _ => inl (PathError "readdirent" ENOTDIR)
      | None => inl (PathError "open" ENOENT)
      end
  end.

End os.

(** ** [afero]: the helpers of the package the program calls *)

Module afero.

(** The dynamic type of an [afero.Fs] value: the operating-system
    filesystem or another implementation.  The file operations of the
    interface are those of the operating system (module [os]), which
    is what [defaultExecutor] installs. *)
Inductive Fs : Set := OsFs | OtherFs.

(** [afero.DirExists]. *)
Definition DirExists (s : os.state) (p : string) : bool * option error :=
  match os.Stat s p with
  | inr n => (os.is_dir n, None)
  | inl ENOENT => (false, None)
  | inl e => (false, Some (PathError "stat" e))
  end.

(** The order of [byName]: bytewise comparison of the names. *)
Definition byName (a b : os.FileInfo) : Prop :=
  String.le (os.Name a) (os.Name b).

Global Instance byName_dec : RelDecision byName.
Proof. intros a b. unfold byName. apply _. Defined.

(** [afero.ReadDir]: the entries of the directory, sorted by name
    ([sort.Sort(byName(list))]). *)
Definition ReadDir (s : os.state) (dirname : string) : error + list os.FileInfo :=
  match os.Readdir s dirname with
  | inl e => inl e
  | inr fis => inr (merge_sort byName fis)
  end.

End afero.

(** ** The network: what [http.DefaultClient] answers for a URL *)

Inductive http_result : Type :=
  | RequestError (e : error)        (* http.NewRequestWithContext fails *)
  | TransportError (e : error)      (* Client.Do fails: no response *)
  | Response (status : N) (body : list Byte.byte) (read_err : option error).
      (* a response with any status; reading its body yields [body] and
         then ends, or fails with [read_err] after [body] *)

(** ** [dfctl-kit/pkg/system]: the host and its format helper *)

Module system.

Record RuntimeInfo := mkRuntimeInfo { OS : string; Arch : string }.

(** Modelled from the spec: [RuntimeInfo.Format] is not among the
    sources.  It fills a format in which [[os]] and [[arch]] stand for
    the host's operating system and architecture and each [%s] (or
    [%v]) for the next argument, as in the artifact name pattern
    [go<version>.<os>-<arch>.tar.gz] built from
    ["go%s.[os]-[arch].tar.gz"]. *)
Fixpoint Format_go (ri : RuntimeInfo) (format : string) (args : list string)
  : string :=
  match format with
  | EmptyString => EmptyString
  | String c rest =>
      match strings.CutPrefix format "[os]", strings.CutPrefix format "[arch]" with
      | Some _, _ =>
          match rest with
          | String _ (String _ (String _ r)) => OS ri +:+ Format_go ri r args
          | _ => EmptyString
          end
      | None, Some _ =>
          match rest with
          | String _ (String _ (String _ (String _ (String _ r)))) =>
              Arch ri +:+ Format_go ri r args
          | _ => EmptyString
          end
      | None, None =>
          match c, rest with
          | "%"%char, String v r =>
              if Ascii.eqb v "s" || Ascii.eqb v "v" then
                match args with
                | a :: args' => a +:+ Format_go ri r args'
                | [] => "%!" +:+ String v "(MISSING)" +:+ Format_go ri r args
                end
              else String c (Format_go ri rest args)
          | _, _ => String c (Format_go ri rest args)
          end
      end
  end.

Definition Format := Format_go.

End system.

(** ** [compress/gzip] and [archive/tar] *)

(** One [tar.Header], as far as [unTarGzip] reads it: the name, whether
    [FileInfo().IsDir()] holds (the type flag is [TypeDir]) and the
    permission bits of [FileInfo().Mode()]. *)
Record Header := mkHeader { Name : string; IsDir : bool; Mode : N }.

(** What a [tar.Reader] yields: for each call of [Next] a header, with
    the body that copying the entry reads (and the error that ends the
    copy, if any), until [io.EOF] or an error. *)
Inductive tar_stream : Type :=
  | tar_EOF
  | tar_error (e : error)
  | tar_entry (h : Header) (body : list Byte.byte) (read_err : option error)
      (rest : tar_stream).

(** The fixed ten bytes of a gzip member header, as [gzip.NewReader]
    checks them first: present, with the magic number [1f 8b] and the
    deflate method [08]. *)
Definition gzip_fixed_header (buf : list Byte.byte) : option error :=
  match buf with
  | [] => Some io_EOF
  | id1 :: id2 :: cm :: _ :: _ :: _ :: _ :: _ :: _ :: _ :: _ =>
      if bool_decide (id1 = Byte.x1f ∧ id2 = Byte.x8b ∧ cm = Byte.x08)
      then None else Some gzip_ErrHeader
  | _ => Some io_ErrUnexpectedEOF
  end.

Inductive exit : Type :=
  | Return (err : option error)
  | Panic (reason : string).

Definition Renamer := string → string.

(** [func unarchiveRenamer() Renamer]. *)
Definition unarchiveRenamer : Renamer := λ p,
  let parts := strings.Split filepath.Separator p in
  let parts := drop 1 parts in
  let newPath := strings.Join parts (String filepath.Separator "") in
  newPath.

Section Archive.

(** The parts of the decoders that the model leaves open: what the
    optional fields of the gzip header (extra, name, comment, header
    CRC) make of a buffer whose fixed header is accepted, and the tar
    entries that inflating such a buffer yields. *)
Variable gzip_optional_fields : list Byte.byte → option error.
Variable inflate_tar : list Byte.byte → tar_stream.

(** [gzip.NewReader]: [None] for a reader, or the error, in which case
    the reader returned is [nil]. *)
Definition gzip_NewReader (buf : list Byte.byte) : option error :=
  match gzip_fixed_header buf with
  | Some e => Some e
  | None => gzip_optional_fields buf
  end.

(** The [for] loop of [unTarGzip]. *)
Fixpoint untar_loop (tr : tar_stream) (target : string)
    (renamer : option Renamer) (s : os.state) : os.state * exit :=
  match tr with
  | tar_EOF => (s, Return None)
  | tar_error err => (s, Return (Some err))
  | tar_entry header body read_err rest =>
      let filename := Name header in
      let filename :=
        match renamer with Some r => r filename | None => filename end in
      let p := filepath.Join [target; filename] in
      if IsDir header then
        match os.MkdirAll s p (Mode header) with
        | (s', Some e) => (s', Return (Some e))
        | (s', None) => untar_loop rest target renamer s'
        end
      else
        match os.OpenFile_create_trunc s p (Mode header) with
        | (s', inl err) => (s', Return (Some err))
        | (s', inr file) =>
            let s'' := os.write s' file body in
            match read_err with
            | Some err => (s'', Return (Some err))
            | None => untar_loop rest target renamer s''
            end
        end
  end.

(** [func unTarGzip(buf, target, renamer, fs) error].  The error of
    [gzip.NewReader] is dropped ([gr, _ := ...]); when there is one,
    [gr] is a nil [*gzip.Reader] and the first [tr.Next()] reads
    through it: a nil pointer dereference. *)
Definition unTarGzip (buf : list Byte.byte) (target : string)
    (renamer : option Renamer) (s : os.state) : os.state * exit :=
  match gzip_NewReader buf with
  | Some _ => (s, Panic "invalid memory address or nil pointer dereference")
  | None => untar_loop (inflate_tar buf) target renamer s
  end.

(** ** [main.go]: the executor *)

Record executor := mkExecutor {
  Fs : afero.Fs;
  URL : string;
  InstallPath : string }.

Definition DownloadURL : string := "https://golang.org".

(** [func defaultExecutor() *executor], for the install path that
    [env.SDKs()] gives. *)
Definition defaultExecutor (installPath : string) : executor :=
  mkExecutor afero.OsFs DownloadURL installPath.

(** The host ([system.OSRuntimeInfoGetter{}.Get()]) and the network. *)
Variable host : system.RuntimeInfo.
Variable net : string → http_result.

(** [func formatGoArchiveArtifactName(ri, version) string]. *)
Definition formatGoArchiveArtifactName (ri : system.RuntimeInfo)
    (version : string) : string :=
  system.Format ri "go%s.[os]-[arch].tar.gz" [version].

(** [func (e *executor) download(ctx, url, outWriter) error]: what was
    written to [outWriter], and the error. *)
Definition download (e : executor) (url : string)
  : list Byte.byte * option error :=
  match net url with
  | RequestError err => ([], Some err)
  | TransportError err => ([], Some err)
  | Response _ body read_err => (body, read_err)
  end.

(** The two names [dlArchive] computes before it downloads. *)
Definition artifactName (version : Version) : string :=
  formatGoArchiveArtifactName host (Version_String version).

Definition dlUri (e : executor) (version : Version) : string :=
  system.Format host "%s/dl/%s" [URL e; artifactName version].

(** [func (e *executor) dlArchive(version)]: the buffer and the error. *)
Definition dlArchive (e : executor) (version : Version)
  : list Byte.byte * option error :=
  let '(buf, err) := download e (dlUri e version) in
  match err with
  | Some err =>
      (buf, Some (Errorf "failed downloading go sdk from the remote server" err))
  | None => (buf, None)
  end.

(** [func (e *executor) Install(version Version) error]. *)
Definition Install (e : executor) (version : Version) (s : os.state)
  : os.state * exit :=
  let installPath := filepath.Join [InstallPath e; Version_String version] in
  match dlArchive e version with
  | (_, Some err) => (s, Return (Some err))
  | (archive, None) =>
      match os.MkdirAll s installPath os.ModePerm with
      | (s1, Some err) =>
          (s1, Return (Some (Errorf "failed to create install directory" err)))
      | (s1, None) =>
          match unTarGzip archive installPath (Some unarchiveRenamer) s1 with
          | (s2, Return (Some err)) =>
              (s2, Return (Some (Errorf "failed to Extract go sdk" err)))
          | r => r
          end
      end
  end.

(** [func (e *executor) Use(version Version) error]. *)
Definition Use (e : executor) (version : Version) (s : os.state)
  : os.state * option error :=
  let versionPath := filepath.Join [InstallPath e; Version_String version] in
  let currentPath := filepath.Join [InstallPath e; "current"] in
  match Fs e with
  | afero.OtherFs => (s, Some errOnlyOsFsSupported)
  | afero.OsFs =>
      match afero.DirExists s versionPath with
      | (true, None) =>
          let '(s1, _) := os.Remove s currentPath in
          os.Symlink_ s1 versionPath currentPath
      | _ => (s, Some ErrVersionNotInstalled)
      end
  end.

(** [func (e *executor) list() (versions []Version, err error)]. *)
Definition list_ (e : executor) (s : os.state) : list Version * option error :=
  match afero.ReadDir s (InstallPath e) with
  | inl err => ([], Some err)
  | inr fis =>
      (map os.Name (filter (λ fi, os.IsDir fi = true) fis), None)
  end.

(** [func (e *executor) current() (Version, error)]. *)
Definition current (e : executor) (s : os.state) : error + Version :=
  let installPath := filepath.Join [InstallPath e; "current"] in
  match Fs e with
  | afero.OtherFs => inl errOnlyOsFsSupported
  | afero.OsFs =>
      match os.Readlink s installPath with
      | inl _ => inl errNoCurrentVersion
      | inr link =>
          let currentDir := filepath.Base link in
          ParseVersion currentDir
      end
  end.

End Archive.

(** ** [main.go]: output and the commands *)


(** [func validateArgsForSubcommand(subcmd, args, expected) error]; the
    error carries the message that [fmt.Errorf] formats. *)
Definition validateArgsForSubcommand (subcmd : string) (args : list string)
    (expected : nat) : option error :=
  if bool_decide (length args ≠ expected) then
    Some (ExternalError
            ("provided wrong number of argument for subcommand '" +:+ subcmd
             +:+ "'; expected=" +:+ semver2.fmt_d (N.of_nat expected)
             +:+ "; provided=" +:+ semver2.fmt_d (N.of_nat (length args))))
  else None.

Definition newline : string := String "010" "".

(** [fmt.Fprintln(w, s)] on a writer that takes everything: the text
    written so far, then [s] and a newline. *)
Definition Fprintln (out s : string) : string := out +:+ s +:+ newline.

Section Commands.

(** What [fmt] makes of a format from its first [%] on when there are
    no operands (the verbs, flags and their error texts are left open). *)
Variable fmt_verbs : string → string.

(** [fmt.Sprintf(format)] without operands: the text before the first
    [%] is copied as it is. *)
Definition Sprintf (format : string) : string :=
  let '(text, rest) :=
    strings.span (λ c, negb (Ascii.eqb c "%")) format in
  text +:+ (if bool_decide (rest = "") then "" else fmt_verbs rest).

Definition Fprintf (out format : string) : string := out +:+ Sprintf format.

(** [func (e *executor) List() error], with the text written to
    [e.Streams.Out]. *)
Definition List (e : executor) (s : os.state) (out : string)
  : string * option error :=
  match list_ e s with
  | (_, Some err) => (out, Some err)
  | (versions, None) =>
      (fold_left (λ out version, Fprintln out (Version_String version))
         versions out, None)
  end.

(** [func (e *executor) Current() error]: the version is the format. *)
Definition Current (e : executor) (s : os.state) (out : string)
  : string * option error :=
  match current e s with
  | inl err => (out, Some err)
  | inr currentVersion => (Fprintf out (Version_String currentVersion), None)
  end.

Variable gzip_optional_fields : list Byte.byte → option error.
Variable inflate_tar : list Byte.byte → tar_stream.
Variable host : system.RuntimeInfo.
Variable net : string → http_result.

(** The package variable [InstallPath], which [defaultExecutor] reads. *)
Variable sdkInstallPath : string.

(** The [RunE] functions of the commands that [NewCmd] builds. *)
Definition installCmd_RunE (args : list string) (s : os.state) : os.state * exit :=
  match validateArgsForSubcommand "install" args 1 with
  | Some err => (s, Return (Some err))
  | None =>
      let e := defaultExecutor sdkInstallPath in
      match args with
      | [] => (s, Panic "index out of range [0] with length 0")
      | arg0 :: _ =>
          match ParseVersion arg0 with
          | inl err => (s, Return (Some err))
          | inr version =>
              Install gzip_optional_fields inflate_tar host net e version s
          end
      end
  end.

Definition useCmd_RunE (args : list string) (s : os.state) : os.state * exit :=
  match validateArgsForSubcommand "use" args 1 with
  | Some err => (s, Return (Some err))
  | None =>
      let e := defaultExecutor sdkInstallPath in
      match args with
      | [] => (s, Panic "index out of range [0] with length 0")
      | arg0 :: _ =>
          match ParseVersion arg0 with
          | inl err => (s, Return (Some err))
          | inr version => let '(s', err) := Use e version s in (s', Return err)
          end
      end
  end.

Definition listCmd_RunE (args : list string) (s : os.state) (out : string)
  : string * option error :=
  match validateArgsForSubcommand "list" args 0 with
  | Some err => (out, Some err)
  | None => let e := defaultExecutor sdkInstallPath in List e s out
  end.

Definition currentCmd_RunE (args : list string) (s : os.state) (out : string)
  : string * option error :=
  match validateArgsForSubcommand "current" args 0 with
  | Some err => (out, Some err)
  | None => let e := defaultExecutor sdkInstallPath in Current e s out
  end.

End Commands.

(** * Vocabulary of the statements *)

(** ** Versions in normal form *)

(** The text of an optional tagged group: nothing for an empty
    identifier list, else the introducing byte and the list. *)
Definition tag_text (c : ascii) (ids : string) : string :=
  if bool_decide (ids = "") then "" else String c ids.

(** A pre-release or metadata field as the parser produces it. *)
Definition tag_ok (ids : string) : Prop :=
  ids = "" ∨ (strings.all semver2.is_ident_or_dot ids = true
              ∧ semver2.dotted_idents ids = true).

Definition version_ok (v : semver2.Version) : Prop :=
  semver2.major v < 2 ^ 63 ∧ semver2.minor v < 2 ^ 63 ∧ semver2.patch v < 2 ^ 63
  ∧ tag_ok (semver2.pre v) ∧ tag_ok (semver2.metadata v).

(** The number that a run of decimal digits writes, read from the left
    on top of [acc]; leading zeros are allowed. *)
Fixpoint numeral_acc (acc : N) (d : string) : N :=
  match d with
  | EmptyString => acc
  | String c d' => numeral_acc (10 * acc + (N_of_ascii c - 48)) d'
  end.

Definition numeral_value (d : string) : N := numeral_acc 0 d.

(** A decimal numeral: a non-empty run of digits. *)
Definition numeral (d : string) : Prop :=
  d ≠ "" ∧ strings.all semver2.is_digit d = true.

(** An optional further number of a version text and what it is worth:
    nothing, worth zero, or a dot and a numeral. *)
Definition dotted_number (part : string) (n : N) : Prop :=
  (part = "" ∧ n = 0)
  ∨ ∃ d, part = String "." d ∧ numeral d ∧ numeral_value d = n.

(** An identifier of a pre-release or of the metadata: a non-empty run
    of letters, digits and hyphens. *)
Definition identifier (x : string) : Prop :=
  x ≠ "" ∧ strings.all semver2.is_ident_char x = true.

(** A pre-release or metadata field: empty, when the version text has
    none, or identifiers joined by dots. *)
Definition field_ok (ids : string) : Prop :=
  ids = "" ∨ ∃ l, l ≠ [] ∧ Forall identifier l ∧ ids = String.concat "." l.

(** [s] is a version text for the numbers [ma], [mi], [pa], the
    pre-release [pre] and the metadata [meta]: an optional [v], the
    major number, up to two further dotted numbers (a missing one is
    worth zero), then [-pre] and [+meta] when these are not empty. *)
Definition version_text (s : string) (ma mi pa : N) (pre meta : string) : Prop :=
  ∃ lead d1 p2 p3,
    s = lead +:+ d1 +:+ p2 +:+ p3 +:+ tag_text "-" pre +:+ tag_text "+" meta
    ∧ (lead = "" ∨ lead = "v")
    ∧ numeral d1 ∧ numeral_value d1 = ma
    ∧ dotted_number p2 mi ∧ dotted_number p3 pa ∧ (p2 = "" → p3 = "")
    ∧ field_ok pre ∧ field_ok meta.

(** The normal form: [major.minor.patch], the numbers in decimal
    without leading zeros, then [-pre] and [+meta] when present. *)
Definition normal_form (ma mi pa : N) (pre meta : string) : string :=
  semver2.fmt_d ma +:+ "." +:+ semver2.fmt_d mi +:+ "." +:+ semver2.fmt_d pa
  +:+ tag_text "-" pre +:+ tag_text "+" meta.

(** The string [s] does not start with a byte that [f] accepts. *)
Definition head_is (f : ascii → bool) (s : string) : Prop :=
  match s with String c _ => f c = false | EmptyString => True end.

(** ** Plain paths *)

Definition no_slash (n : string) : Prop :=
  strings.all (λ c, negb (Ascii.eqb c "/")) n = true.

(** A name as a directory holds it: not empty, not [.] or [..], without
    a slash. *)
Definition plain_name (n : string) : Prop :=
  n ≠ "" ∧ n ≠ "." ∧ n ≠ ".." ∧ no_slash n.

Global Instance plain_name_dec n : Decision (plain_name n).
Proof. unfold plain_name, no_slash. apply _. Defined.

(** Below [cur], every name on the way along [names] is a real
    directory (no symbolic link among them). *)
Definition dirs_at (t : gmap (list string) os.node) (cur names : list string) : Prop :=
  ∀ pre, pre `prefix_of` names → pre ≠ [] → ∃ perm, t !! (cur ++ pre) = Some (os.Dir perm).

(** The same as a check that computes. *)
Fixpoint dir_path (t : gmap (list string) os.node) (cur names : list string) : bool :=
  match names with
  | [] => true
  | n :: rest =>
      match t !! (cur ++ [n]) with
      | Some (os.Dir _) => dir_path t (cur ++ [n]) rest
      | _ => false
      end
  end.

(** Nothing lies below the directory at [root]. *)
Definition empty_below (root : list string) (t : gmap (list string) os.node) : Prop :=
  map_Forall (λ k _, ¬ (root `prefix_of` k ∧ k ≠ root)) t.

(** An entry that [os.Remove] takes away: nothing, a file, a link or an
    empty directory. *)
Definition removable (t : gmap (list string) os.node) (loc : list string) : Prop :=
  match t !! loc with
  | Some (os.Dir _) => os.children t loc = []
  | _ => True
  end.

(** What [MkdirAll] leaves: every missing directory on the way to
    [names], made with [perm]; nothing else changes. *)
Definition made_dirs (t t' : gmap (list string) os.node) (names : list string)
    (perm : N) : Prop :=
  ∀ k, t' !! k = match t !! k with
                 | Some n => Some n
                 | None => if decide (k ≠ [] ∧ k `prefix_of` names)
                           then Some (os.Dir perm) else None
                 end.

(** ** Archives *)

(** An archive entry: its header and the content of the file. *)
Definition entry : Type := Header * list Byte.byte.

(** The stream a reader yields for an intact archive of these entries. *)
Fixpoint stream_of (entries : list entry) : tar_stream :=
  match entries with
  | [] => tar_EOF
  | (h, body) :: rest => tar_entry h body None (stream_of rest)
  end.

(** The names of an entry below the wrapper: the segments of its name
    between slashes without the first of them; empty segments (a
    trailing or a doubled slash) do not count. *)
Definition rel_names (h : Header) : list string :=
  filter (λ e, e ≠ "") (drop 1 (strings.Split "/" (Name h))).

(** An entry that the loop of [unTarGzip] can place after the entries
    [done]: its names are not [.] or [..]; no earlier file lies on its
    path; and, for a file, the path is not taken (by an earlier file or
    as a directory) and its directory is the target itself or was made
    by an earlier directory entry. *)
Definition entry_ok (done : list entry) (e : entry) : Prop :=
  Forall (λ n, n ≠ "." ∧ n ≠ "..") (rel_names e.1)
  ∧ Forall (λ x : entry, IsDir x.1 = false →
                         ¬ rel_names x.1 `prefix_of` rel_names e.1) done
  ∧ (IsDir e.1 = false →
       rel_names e.1 ≠ []
       ∧ Forall (λ x : entry, ¬ rel_names e.1 `prefix_of` rel_names x.1) done
       ∧ (removelast (rel_names e.1) = []
          ∨ Exists (λ d : entry,
                      IsDir d.1 = true
                      ∧ removelast (rel_names e.1) `prefix_of` rel_names d.1) done)).

Fixpoint extractable (done todo : list entry) : Prop :=
  match todo with
  | [] => True
  | e :: rest => entry_ok done e ∧ extractable (done ++ [e]) rest
  end.

Global Instance entry_ok_dec done e : Decision (entry_ok done e).
Proof. unfold entry_ok. apply _. Defined.

Global Instance extractable_dec done todo : Decision (extractable done todo).
Proof. revert done. induction todo as [|e todo IH]; intros done; cbn; apply _. Defined.

(** A mode without the bits of the umask [um]: the permission bits that
    a file or a directory made with the mode [perm] gets. *)
Definition mode_less (um perm : N) : N := N.land (N.ldiff perm um) 511.

(** The tree [t] is the tree [t0] with exactly the [entries] extracted
    below [root] by a process with the umask [um]: nothing changed
    elsewhere; the files are those of the file entries, at the entry's
    path without its first segment, with the entry's content and its
    mode less the umask; the directories are the paths of the directory
    entries and the directories on the way to them, each with the mode,
    less the umask, of a directory entry on whose path it lies; there
    is no link. *)
Record extracted (um : N) (root : list string) (t0 : gmap (list string) os.node)
    (entries : list entry) (t : gmap (list string) os.node) : Prop := {
  ex_out : ∀ k, (∀ rel, rel ≠ [] → k ≠ root ++ rel) → t !! k = t0 !! k;
  ex_file : ∀ rel perm data, rel ≠ [] →
    t !! (root ++ rel) = Some (os.File perm data)
    ↔ ∃ h, (h, data) ∈ entries ∧ IsDir h = false ∧ rel_names h = rel
           ∧ mode_less um (Mode h) = perm;
  ex_dir : ∀ rel, rel ≠ [] →
    (∃ perm, t !! (root ++ rel) = Some (os.Dir perm))
    ↔ ∃ h body, (h, body) ∈ entries ∧ IsDir h = true ∧ rel `prefix_of` rel_names h;
  ex_dir_mode : ∀ rel perm, rel ≠ [] →
    t !! (root ++ rel) = Some (os.Dir perm) →
    ∃ h body, (h, body) ∈ entries ∧ IsDir h = true ∧ rel `prefix_of` rel_names h
              ∧ perm = mode_less um (Mode h);
  ex_link : ∀ rel tg, rel ≠ [] → t !! (root ++ rel) ≠ Some (os.Symlink tg) }.

(** The directories on the way along [names] from [cur] are real
    directories that the process may search. *)
Fixpoint open_path (s : os.state) (cur names : list string) : bool :=
  match names with
  | [] => true
  | n :: rest =>
      match os.tree s !! (cur ++ [n]) with
      | Some (os.Dir perm) => os.permits s perm 64 && open_path s (cur ++ [n]) rest
      | _ => false
      end
  end.

(** A directory in which the process can install: [names] leads to it
    from the root through real directories that the process may
    search, and the process may make entries in it. *)
Definition workable (s : os.state) (names : list string) : Prop :=
  open_path s [] names = true ∧ os.may_create_in s names = true.

(** The process may read the entries of the directory at [dir]. *)
Definition listable (s : os.state) (dir : list string) : bool :=
  match os.lookup (os.tree s) dir with
  | Some (os.Dir perm) => os.permits s perm 256
  | _ => false
  end.

(** The directories that the entries make are open to the process that
    makes them: with their mode less the umask it may write and search
    them (as it may the directories of a release archive, of mode
    [0755]). *)
Definition dirs_usable (s : os.state) (entries : list entry) : Prop :=
  Forall (λ e : entry, IsDir e.1 = true →
                       os.permits s (mode_less (os.umask s) (Mode e.1)) 192 = true) entries.

(** The files that the entries make can be written again by the
    process that made them. *)
Definition files_rewritable (s : os.state) (entries : list entry) : Prop :=
  Forall (λ e : entry, IsDir e.1 = false →
                       os.permits s (mode_less (os.umask s) (Mode e.1)) 128 = true) entries.

Global Instance workable_dec s names : Decision (workable s names).
Proof. unfold workable. apply _. Defined.

Global Instance dirs_usable_dec s entries : Decision (dirs_usable s entries).
Proof. unfold dirs_usable. apply _. Defined.

Global Instance files_rewritable_dec s entries : Decision (files_rewritable s entries).
Proof. unfold files_rewritable. apply _. Defined.

(** Below [root], whatever exists lies in a directory. *)
Definition tree_shaped (root : list string) (t : gmap (list string) os.node) : Prop :=
  ∀ rel x, rel ≠ [] → is_Some (t !! (root ++ rel ++ [x])) →
           ∃ perm, t !! (root ++ rel) = Some (os.Dir perm).

(** A stream that yields the [entries] and then goes on as [rest]. *)
Fixpoint stream_then (entries : list entry) (rest : tar_stream) : tar_stream :=
  match entries with
  | [] => rest
  | (h, body) :: entries' => tar_entry h body None (stream_then entries' rest)
  end.

(** The bytes a normalised version is made of. *)
Definition version_char (c : ascii) : bool :=
  semver2.is_ident_char c || Ascii.eqb c "." || Ascii.eqb c "+".

(** No byte of [s] is [sep]. *)
Definition no_byte (sep : ascii) (s : string) : Prop :=
  strings.all (λ c, negb (Ascii.eqb c sep)) s = true.


(** ** Concrete hosts, trees and archives *)

Definition linux_amd64 : system.RuntimeInfo := system.mkRuntimeInfo "linux" "amd64".

Definition sdk_tree : gmap (list string) os.node :=
  list_to_map [ (["sdk"], os.Dir 493); (["sdk"; "go"], os.Dir 493) ].

Definition sdk_state : os.state := os.mkState sdk_tree [].

Definition sdk_tree_current_dir : gmap (list string) os.node :=
  list_to_map [ (["sdk"], os.Dir 493); (["sdk"; "go"], os.Dir 493);
                (["sdk"; "go"; "1.17.1"], os.Dir 493);
                (["sdk"; "go"; "current"], os.Dir 493) ].

Definition sdk_tree_current_link : gmap (list string) os.node :=
  list_to_map [ (["sdk"], os.Dir 493); (["sdk"; "go"], os.Dir 493);
                (["sdk"; "go"; "1.17.1"], os.Dir 493);
                (["sdk"; "go"; "current"], os.Symlink "/sdk/go/1.17.1") ].


Definition sdk_tree_two : gmap (list string) os.node :=
  list_to_map [ (["sdk"], os.Dir 493); (["sdk"; "go"], os.Dir 493);
                (["sdk"; "go"; "1.16.8"], os.Dir 493);
                (["sdk"; "go"; "1.17.1"], os.Dir 493) ].

(** Versions made in no particular order, beside a file and the link. *)
Definition sdk_tree_mixed : gmap (list string) os.node :=
  list_to_map [ (["sdk"], os.Dir 493); (["sdk"; "go"], os.Dir 493);
                (["sdk"; "go"; "1.9.0"], os.Dir 493);
                (["sdk"; "go"; "1.17.1"], os.Dir 493);
                (["sdk"; "go"; "README"], os.File 420 []);
                (["sdk"; "go"; "1.16.8"], os.Dir 493);
                (["sdk"; "go"; "current"], os.Symlink "/sdk/go/1.17.1") ].

Definition sdk_tree_installed : gmap (list string) os.node :=
  list_to_map [ (["sdk"], os.Dir 493); (["sdk"; "go"], os.Dir 493);
                (["sdk"; "go"; "1.17.1"], os.Dir 511) ].

(** A buffer that starts as a gzip member does. *)
Definition gzip_magic : list Byte.byte :=
  [Byte.x1f; Byte.x8b; Byte.x08; Byte.x00; Byte.x00; Byte.x00; Byte.x00;
   Byte.x00; Byte.x00; Byte.x03].

(** A release archive in miniature, with its directory entries. *)
Definition go_archive : list entry :=
  [ (mkHeader "go/" true 493, []);
    (mkHeader "go/bin/" true 493, []);
    (mkHeader "go/bin/go" false 493, [Byte.x7f; Byte.x45; Byte.x4c; Byte.x46]);
    (mkHeader "go/VERSION" false 420, [Byte.x67; Byte.x6f]) ].

(** The same files without the directory entries. *)
Definition go_archive_files_only : list entry :=
  [ (mkHeader "go/bin/go" false 493, [Byte.x7f; Byte.x45; Byte.x4c; Byte.x46]);
    (mkHeader "go/VERSION" false 420, [Byte.x67; Byte.x6f]) ].

(** * Checks on concrete inputs *)

Example ParseVersion_ex1 : ParseVersion "v1.17.1" = inr "1.17.1".
Proof. vm_compute. reflexivity. Qed.

Example ParseVersion_ex2 : ParseVersion "1.16" = inr "1.16.0".
Proof. vm_compute. reflexivity. Qed.

Example ParseVersion_ex3 : ParseVersion "1.2.3-beta.1+build-7" = inr "1.2.3-beta.1+build-7".
Proof. vm_compute. reflexivity. Qed.

Example ParseVersion_ex4 : ParseVersion "not-a-version" = inl ErrInvalidSemVer.
Proof. vm_compute. reflexivity. Qed.

Example Clean_ex1 : filepath.Clean "/a//b/./c/../d/" = "/a/b/d".
Proof. vm_compute. reflexivity. Qed.

Example Clean_ex2 : filepath.Clean "../../a/.." = "../..".
Proof. vm_compute. reflexivity. Qed.

Example Base_ex1 : filepath.Base "/sdk/go/1.17.1" = "1.17.1".
Proof. vm_compute. reflexivity. Qed.

(** The life of one version on an empty install root: install, list,
    use, current. *)
Example lifecycle :
  let e := defaultExecutor "/sdk/go" in
  let net := λ url : string,
    if String.eqb url "https://golang.org/dl/go1.17.1.linux-amd64.tar.gz"
    then Response 200 gzip_magic None else Response 404 [] None in
  let installed := Install (λ _, None) (λ _, stream_of go_archive) linux_amd64 net
                     e "1.17.1" sdk_state in
  let used := Use e "1.17.1" installed.1 in
  installed.2 = Return None
  ∧ os.tree installed.1 !! ["sdk"; "go"; "1.17.1"; "bin"; "go"]
    = Some (os.File 493 [Byte.x7f; Byte.x45; Byte.x4c; Byte.x46])
  ∧ os.tree installed.1 !! ["sdk"; "go"; "1.17.1"; "VERSION"]
    = Some (os.File 420 [Byte.x67; Byte.x6f])
  ∧ list_ e installed.1 = (["1.17.1"], None)
  ∧ used.2 = None
  ∧ list_ e used.1 = (["1.17.1"], None)
  ∧ current e used.1 = inr "1.17.1".
Proof. vm_compute. repeat split; reflexivity. Qed.

(** An entry name with [..] leaves the target directory. *)
Example unTarGzip_dotdot_escapes :
  let archive := [ (mkHeader "go/../../escaped" false 420, [Byte.x21]) ] in
  let r := unTarGzip (λ _, None) (λ _, stream_of archive) gzip_magic
             "/sdk/go/1.17.1" (Some unarchiveRenamer)
             (os.mkState sdk_tree_installed []) in
  r.2 = Return None
  ∧ os.tree r.1 !! ["sdk"; "escaped"] = Some (os.File 420 [Byte.x21]).
Proof. vm_compute. split; reflexivity. Qed.

(** With a real, non-empty directory named [current] the removal fails
    unnoticed and [Use] returns the error of the link creation. *)
Example Use_current_is_nonempty_directory :
  let t : gmap (list string) os.node :=
    <[["sdk"; "go"; "current"; "bin"] := os.Dir 493]> sdk_tree_current_dir in
  Use (defaultExecutor "/sdk/go") "1.17.1" (os.mkState t [])
  = (os.mkState t [], Some (PathError "symlink" EEXIST)).
Proof. vm_compute. reflexivity. Qed.

(** The modes of what an installation makes are the modes asked for
    less the umask: with the umask [077] the version directory is made
    [0700], the program [0700] and the text file [0600]. *)
Example Install_umask :
  let installed := Install (λ _, None) (λ _, stream_of go_archive) linux_amd64
                     (λ _, Response 200 gzip_magic None) (defaultExecutor "/sdk/go")
                     "1.17.1" (os.mkProcess sdk_tree [] 63 false) in
  installed.2 = Return None
  ∧ os.tree installed.1 !! ["sdk"; "go"; "1.17.1"] = Some (os.Dir 448)
  ∧ os.tree installed.1 !! ["sdk"; "go"; "1.17.1"; "bin"; "go"]
    = Some (os.File 448 [Byte.x7f; Byte.x45; Byte.x4c; Byte.x46])
  ∧ os.tree installed.1 !! ["sdk"; "go"; "1.17.1"; "VERSION"]
    = Some (os.File 384 [Byte.x67; Byte.x6f]).
Proof. vm_compute. repeat split; reflexivity. Qed.

(** A directory entry of mode [0555] is made, but an unprivileged
    process cannot put the next entry into it; a privileged one can. *)
Example unTarGzip_read_only_directory :
  let archive := [ (mkHeader "go/pkg/" true 365, []);
                   (mkHeader "go/pkg/a" false 420, [Byte.x21]) ] in
  let run := λ s, unTarGzip (λ _, None) (λ _, stream_of archive) gzip_magic
                    "/sdk/go/1.17.1" (Some unarchiveRenamer) s in
  let r := run (os.mkProcess sdk_tree_installed [] 18 false) in
  let r' := run (os.mkProcess sdk_tree_installed [] 18 true) in
  r.2 = Return (Some (PathError "open" EACCES))
  ∧ os.tree r.1 !! ["sdk"; "go"; "1.17.1"; "pkg"] = Some (os.Dir 365)
  ∧ os.tree r.1 !! ["sdk"; "go"; "1.17.1"; "pkg"; "a"] = None
  ∧ r'.2 = Return None
  ∧ os.tree r'.1 !! ["sdk"; "go"; "1.17.1"; "pkg"; "a"] = Some (os.File 420 [Byte.x21]).
Proof. vm_compute. repeat split; reflexivity. Qed.

(** A file entry of mode [0444] is made and written, but a second
    installation cannot open it for writing again. *)
Example Install_again_read_only_file :
  let archive := [ (mkHeader "go/" true 493, []);
                   (mkHeader "go/VERSION" false 292, [Byte.x67; Byte.x6f]) ] in
  let install := Install (λ _, None) (λ _, stream_of archive) linux_amd64
                   (λ _, Response 200 gzip_magic None) (defaultExecutor "/sdk/go")
                   "1.17.1" in
  let first := install sdk_state in
  let second := install first.1 in
  first.2 = Return None
  ∧ os.tree first.1 !! ["sdk"; "go"; "1.17.1"; "VERSION"]
    = Some (os.File 292 [Byte.x67; Byte.x6f])
  ∧ second = (first.1, Return (Some (Errorf "failed to Extract go sdk"
                                       (PathError "open" EACCES)))).
Proof. vm_compute. repeat split; reflexivity. Qed.

(** In an install root that the process may not write, [Install] fails
    when it makes the directory of the version. *)
Example Install_read_only_root :
  let t : gmap (list string) os.node :=
    list_to_map [ (["sdk"], os.Dir 493); (["sdk"; "go"], os.Dir 365) ] in
  Install (λ _, None) (λ _, stream_of go_archive) linux_amd64
    (λ _, Response 200 gzip_magic None) (defaultExecutor "/sdk/go") "1.17.1"
    (os.mkState t [])
  = (os.mkState t [], Return (Some (Errorf "failed to create install directory"
                                      (PathError "mkdir" EACCES)))).
Proof. vm_compute. reflexivity. Qed.

(** On a filesystem other than the operating system's, [Use] and
    [current] refuse. *)
Example Use_other_filesystem :
  let e := mkExecutor afero.OtherFs DownloadURL "/sdk/go" in
  Use e "1.17.1" sdk_state = (sdk_state, Some errOnlyOsFsSupported)
  ∧ current e sdk_state = inl errOnlyOsFsSupported.
Proof. split; reflexivity. Qed.

(** * Properties *)

(** ** Facts about strings *)

Lemma str_app_cons (c : ascii) (s t : string) :
  String c s +:+ t = String c (s +:+ t).
Proof. reflexivity. Qed.

Lemma str_app_nil_l (s : string) : "" +:+ s = s.
Proof. reflexivity. Qed.

Lemma str_app_nil_r (s : string) : s +:+ "" = s.
Proof.
  induction s as [|c s IH]; [done|]. by rewrite str_app_cons, IH.
Qed.


(** ** Versions *)

Lemma span_spec (f : ascii → bool) (s a b : string) :
  strings.span f s = (a, b) →
  s = a +:+ b ∧ strings.all f a = true
  ∧ match b with String c _ => f c = false | EmptyString => True end.
Proof.
  revert a b. induction s as [|c s IH]; intros a b; cbn.
  - by intros [= <- <-].
  - destruct (f c) eqn:Hc.
    + destruct (strings.span f s) as [a' b'] eqn:Hs. intros [= <- <-].
      destruct (IH _ _ eq_refl) as (-> & Ha & Hb).
      cbn. by rewrite Hc, Ha.
    + intros [= <- <-]. by rewrite Hc.
Qed.

Lemma span_app (f : ascii → bool) (a b : string) :
  strings.all f a = true →
  match b with String c _ => f c = false | EmptyString => True end →
  strings.span f (a +:+ b) = (a, b).
Proof.
  intros Ha Hb. induction a as [|c a IH].
  - rewrite str_app_nil_l. destruct b as [|c b]; [done|]. cbn. by rewrite Hb.
  - cbn in Ha. apply andb_true_iff in Ha as [Hc Ha].
    rewrite str_app_cons. cbn. by rewrite Hc, (IH Ha).
Qed.

Lemma string_of_uint_digits (d : Decimal.uint) :
  strings.all semver2.is_digit (NilEmpty.string_of_uint d) = true.
Proof. induction d; cbn; try done; by rewrite IHd. Qed.

Lemma fmt_d_digits (n : N) : strings.all semver2.is_digit (semver2.fmt_d n) = true.
Proof. apply string_of_uint_digits. Qed.

Lemma fmt_d_head (n : N) :
  ∃ c r, semver2.fmt_d n = String c r ∧ semver2.is_digit c = true.
Proof.
  pose proof (fmt_d_digits n) as Hd. unfold semver2.fmt_d in *.
  destruct n as [|p]; [by eexists _, _|].
  cbn [N.to_uint] in *.
  pose proof (DecimalPos.Unsigned.to_uint_nonnil p) as Hnn.
  destruct (Pos.to_uint p); try done; cbn in *; eexists _, _; split; done.
Qed.

Lemma ParseInt_fmt_d (n : N) : n < 2 ^ 63 → semver2.ParseInt (semver2.fmt_d n) = Some n.
Proof.
  intros Hn. unfold semver2.ParseInt.
  destruct (fmt_d_head n) as (c & r & Heq & _).
  rewrite bool_decide_eq_false_2 by (rewrite Heq; done).
  unfold semver2.fmt_d. rewrite NilEmpty.usu, DecimalN.Unsigned.of_to.
  by rewrite (proj2 (N.ltb_lt _ _) Hn).
Qed.

Lemma ParseInt_bound (s : string) (n : N) : semver2.ParseInt s = Some n → n < 2 ^ 63.
Proof.
  unfold semver2.ParseInt. case_bool_decide; [done|].
  destruct (NilEmpty.uint_of_string s); [|done].
  destruct (N.ltb_spec (N.of_uint u) (2 ^ 63)); [|done]. by intros [= <-].
Qed.

Lemma match_tagged_ok (c : ascii) (s ids rest : string) :
  semver2.match_tagged c s = Some (ids, rest) → tag_ok ids.
Proof.
  unfold semver2.match_tagged. destruct s as [|c' s']; [intros [= <- <-]; by left|].
  destruct (Ascii.eqb c' c); [|intros [= <- <-]; by left].
  destruct (strings.span semver2.is_ident_or_dot s') as [a b] eqn:Hsp.
  destruct (semver2.dotted_idents a) eqn:Hd; [|done].
  intros [= <- <-]. apply span_spec in Hsp as (_ & Ha & _). by right.
Qed.

Lemma match_tagged_print (c : ascii) (ids rest : string) :
  tag_ok ids →
  match rest with
  | String c' _ => semver2.is_ident_or_dot c' = false ∧ Ascii.eqb c' c = false
  | EmptyString => True
  end →
  semver2.match_tagged c (tag_text c ids +:+ rest) = Some (ids, rest).
Proof.
  intros Hok Hrest. unfold tag_text. case_bool_decide as Hids.
  - subst ids. rewrite str_app_nil_l. unfold semver2.match_tagged.
    destruct rest as [|c' r]; [done|]. destruct Hrest as [_ ->]. done.
  - destruct Hok as [?|[Hall Hdot]]; [done|].
    rewrite str_app_cons. unfold semver2.match_tagged.
    rewrite Ascii.eqb_refl, span_app, Hdot; [done|done|].
    destruct rest; [done|]. apply Hrest.
Qed.

Lemma is_digit_not_v (c : ascii) : semver2.is_digit c = true → Ascii.eqb c "v" = false.
Proof. destruct c as [[] [] [] [] [] [] [] []]; done. Qed.

Lemma match_number_print (n : N) (rest : string) :
  match rest with String c _ => semver2.is_digit c = false | EmptyString => True end →
  semver2.match_number (semver2.fmt_d n +:+ rest) = Some (semver2.fmt_d n, rest).
Proof.
  intros Hrest. unfold semver2.match_number.
  rewrite span_app by (done || apply fmt_d_digits).
  destruct (fmt_d_head n) as (c & r & -> & _). done.
Qed.

Lemma tag_text_head (c : ascii) (ids rest : string) (f : ascii → bool) :
  f c = false →
  match rest with String c' _ => f c' = false | EmptyString => True end →
  match tag_text c ids +:+ rest with
  | String c' _ => f c' = false
  | EmptyString => True
  end.
Proof.
  intros Hc Hrest. unfold tag_text. case_bool_decide.
  - by rewrite str_app_nil_l.
  - by rewrite str_app_cons.
Qed.

Lemma parse_segment_bound (m : string) (n : N) :
  semver2.parse_segment m = inr n → n < 2 ^ 63.
Proof.
  unfold semver2.parse_segment. case_bool_decide; [by intros [= <-]|].
  destruct (semver2.ParseInt _) eqn:Hp; [|done].
  intros [= <-]. by eapply ParseInt_bound.
Qed.

Lemma NewVersion_ok (s : string) (v : semver2.Version) :
  semver2.NewVersion s = inr v → version_ok v.
Proof.
  unfold semver2.NewVersion, semver2.FindStringSubmatch.
  destruct (semver2.match_number _) as [[m1 r1]|]; [cbn|done].
  destruct (semver2.match_dot_number r1) as [m2 r2].
  destruct (semver2.match_dot_number r2) as [m3 r3].
  destruct (semver2.match_tagged "-" r3) as [[m5 r4]|] eqn:H5; [cbn|done].
  destruct (semver2.match_tagged "+" r4) as [[m8 r5]|] eqn:H8; [cbn|done].
  case_bool_decide; [|done].
  destruct (semver2.ParseInt m1) as [ma|] eqn:Hma; [|done].
  destruct (semver2.parse_segment m2) as [|mi] eqn:Hmi; [done|].
  destruct (semver2.parse_segment m3) as [|pa] eqn:Hpa; [done|].
  intros [= <-]. repeat split; cbn.
  - by eapply ParseInt_bound.
  - by eapply parse_segment_bound.
  - by eapply parse_segment_bound.
  - by eapply match_tagged_ok.
  - by eapply match_tagged_ok.
Qed.

Lemma String_eq (v : semver2.Version) :
  semver2.String v
  = semver2.fmt_d (semver2.major v) +:+ "." +:+ semver2.fmt_d (semver2.minor v)
    +:+ "." +:+ semver2.fmt_d (semver2.patch v)
    +:+ tag_text "-" (semver2.pre v) +:+ tag_text "+" (semver2.metadata v).
Proof. unfold semver2.String, tag_text. by repeat case_bool_decide. Qed.

Lemma TrimPrefix_dot (x : string) : strings.TrimPrefix (String "." x) "." = x.
Proof. reflexivity. Qed.

Lemma NewVersion_String (v : semver2.Version) :
  version_ok v →
  semver2.NewVersion (semver2.String v)
  = inr (semver2.mkVersion (semver2.major v) (semver2.minor v) (semver2.patch v)
           (semver2.pre v) (semver2.metadata v) (semver2.String v)).
Proof.
  intros (Hma & Hmi & Hpa & Hpre & Hmeta).
  unfold semver2.NewVersion, semver2.FindStringSubmatch.
  rewrite String_eq at 1.
  set (tail := tag_text "-" (semver2.pre v) +:+ tag_text "+" (semver2.metadata v)).
  assert (Htrim : ∀ n r, strings.TrimPrefix (semver2.fmt_d n +:+ r) "v"
                         = semver2.fmt_d n +:+ r).
  { intros n r. destruct (fmt_d_head n) as (c & d & -> & Hc).
    rewrite str_app_cons. unfold strings.TrimPrefix. cbn.
    by rewrite (is_digit_not_v c Hc). }
  rewrite Htrim, match_number_print by done. cbn.
  change ("." +:+ ?x) with (String "." x).
  unfold semver2.match_dot_number at 1. rewrite match_number_print by done.
  change ("." +:+ ?x) with (String "." x).
  unfold semver2.match_dot_number at 1. rewrite match_number_print.
  2:{ subst tail. apply tag_text_head; [done|].
      rewrite <-(str_app_nil_r (tag_text _ _)). by apply tag_text_head. }
  subst tail. rewrite match_tagged_print; [cbn|done|].
  2:{ unfold tag_text. case_bool_decide; done. }
  rewrite <-(str_app_nil_r (tag_text "+" _)), match_tagged_print by done. cbn.
  rewrite bool_decide_eq_true_2 by done. cbv beta iota.
  rewrite ParseInt_fmt_d by done.
  unfold semver2.parse_segment.
  rewrite !bool_decide_eq_false_2 by done.
  rewrite !TrimPrefix_dot.
  by rewrite !ParseInt_fmt_d by done.
Qed.

Lemma String_head_digit (v : semver2.Version) :
  ∃ c r, semver2.String v = String c r ∧ semver2.is_digit c = true.
Proof.
  rewrite String_eq. destruct (fmt_d_head (semver2.major v)) as (c & r & -> & Hc).
  rewrite str_app_cons. eauto.
Qed.

(** C10 (as stated, refuted): the input ["v1.17.1"] does not parse to
    itself; it parses to ["1.17.1"], the same [Version] as the input
    ["1.17.1"]. *)
Lemma ParseVersion_drops_v :
  ParseVersion "v1.17.1" = inr "1.17.1"
  ∧ Version_String "1.17.1" ≠ "v1.17.1"
  ∧ ParseVersion "v1.17.1" = ParseVersion "1.17.1".
Proof. repeat split; try (vm_compute; reflexivity). discriminate. Qed.

(** A parsed version starts with a digit: [Number] leaves it as it is. *)
Lemma ParseVersion_bare (s : string) (v : Version) :
  ParseVersion s = inr v → Number v = v.
Proof.
  unfold ParseVersion. destruct (semver2.NewVersion s) as [|sv]; [done|].
  intros [= <-]. destruct (String_head_digit sv) as (c & r & -> & Hc).
  unfold Number, strings.TrimPrefix. cbn. by rewrite (is_digit_not_v c Hc).
Qed.

(** For a parsed version the requested artifact name has the bare
    version: [String] and [Number] agree on it. *)
Lemma artifactName_parsed host (s : string) (v : Version) :
  ParseVersion s = inr v →
  artifactName host v = formatGoArchiveArtifactName host (Number v).
Proof.
  intros Hn%ParseVersion_bare.
  unfold artifactName, Version_String. by rewrite Hn.
Qed.

(** ** Download and artifact name *)

Lemma Format_artifact (ri : system.RuntimeInfo) (version : string) :
  formatGoArchiveArtifactName ri version
  = "go" +:+ version +:+ "." +:+ system.OS ri +:+ "-" +:+ system.Arch ri +:+ ".tar.gz".
Proof.
  unfold formatGoArchiveArtifactName, system.Format. cbn. reflexivity.
Qed.

Lemma dlUri_eq host (e : executor) (version : Version) :
  dlUri host e version
  = URL e +:+ "/dl/" +:+ "go" +:+ version +:+ "." +:+ system.OS host
    +:+ "-" +:+ system.Arch host +:+ ".tar.gz".
Proof.
  unfold dlUri, artifactName, system.Format. rewrite Format_artifact.
  cbn. by rewrite str_app_nil_r.
Qed.

(** C2 (code at the failing input): for the version ["v1.17.1"], which
    [TestHandleInstall] passes to [Install], [dlArchive] builds the
    artifact name from [version.String()], so the name it requests keeps
    the [v]; the name built from [version.Number()] is a different one. *)
Theorem artifactName_keeps_v :
  artifactName linux_amd64 "v1.17.1" = "gov1.17.1.linux-amd64.tar.gz"
  ∧ dlUri linux_amd64 (defaultExecutor "/sdk/go") "v1.17.1"
    = "https://golang.org/dl/gov1.17.1.linux-amd64.tar.gz"
  ∧ formatGoArchiveArtifactName linux_amd64 (Number "v1.17.1")
    = "go1.17.1.linux-amd64.tar.gz"
  ∧ artifactName linux_amd64 "v1.17.1"
    ≠ formatGoArchiveArtifactName linux_amd64 (Number "v1.17.1").
Proof. repeat split; try reflexivity. discriminate. Qed.

(** The requested name is [go<version>.<os>-<arch>.tar.gz] with the
    version string as it is. *)
Lemma artifactName_eq host (version : Version) :
  artifactName host version
  = "go" +:+ version +:+ "." +:+ system.OS host +:+ "-" +:+ system.Arch host
    +:+ ".tar.gz".
Proof. apply Format_artifact. Qed.

(** C3 (as stated, refuted): a response with status 404 is not a failed
    download: its body is copied to the buffer and [download] and
    [dlArchive] return no error. *)
Lemma download_404_is_success :
  let body := [Byte.x3c; Byte.x68; Byte.x31; Byte.x3e] in
  let net := λ _ : string, Response 404 body None in
  download net (defaultExecutor "/sdk/go")
    "https://golang.org/dl/go0.0.1.linux-amd64.tar.gz" = (body, None)
  ∧ dlArchive linux_amd64 net (defaultExecutor "/sdk/go") "0.0.1" = (body, None).
Proof. split; reflexivity. Qed.

(** C3 (amended): [dlArchive] returns the buffer [buf] and no error
    exactly when the transport delivered a response, of whatever
    status, whose body, read to the end, is [buf]: every status
    succeeds, and the buffer holds the whole body.  It returns an error
    exactly when there is no such response: the request cannot be
    built, the transport fails or reading the body fails. *)
Theorem dlArchive_success_iff host net (e : executor) (version : Version)
    (buf : list Byte.byte) :
  (dlArchive host net e version = (buf, None)
   ↔ ∃ status, net (dlUri host e version) = Response status buf None)
  ∧ ((dlArchive host net e version).2 ≠ None
     ↔ ∀ status body, net (dlUri host e version) ≠ Response status body None).
Proof.
  unfold dlArchive, download.
  destruct (net (dlUri host e version)) as [err|err|status body [err|]]; cbn.
  - split; split; (done || by intros [? ?]).
  - split; split; (done || by intros [? ?]).
  - split; split; (done || by intros [? ?]).
  - split; split.
    + intros [= ->]. by exists status.
    + by intros [? [= _ ->]].
    + done.
    + intros H. by destruct (H status body).
Qed.

(** A failing transport is reported, wrapped by [dlArchive]. *)
Lemma dlArchive_transport_error host net (e : executor) (version : Version) err :
  net (dlUri host e version) = TransportError err →
  dlArchive host net e version
  = ([], Some (Errorf "failed downloading go sdk from the remote server" err)).
Proof. intros H. unfold dlArchive, download. rewrite H. reflexivity. Qed.

(** ** Install *)

(** C8: when the download step fails, [Install] returns its error and
    the filesystem is as it was: nothing is created under the install
    root before the archive has been downloaded. *)
Theorem Install_download_failure gzip_optional_fields inflate_tar host net
    (e : executor) (version : Version) (s : os.state) (err : error) :
  (dlArchive host net e version).2 = Some err →
  Install gzip_optional_fields inflate_tar host net e version s
  = (s, Return (Some err)).
Proof.
  intros H. unfold Install.
  destruct (dlArchive host net e version) as [buf [err'|]]; cbn in H; [|done].
  by inversion H.
Qed.

Lemma Install_download_failure_witness :
  let net := λ _ : string, TransportError (ExternalError "dial tcp: no route to host") in
  let err := Errorf "failed downloading go sdk from the remote server"
               (ExternalError "dial tcp: no route to host") in
  (dlArchive linux_amd64 net (defaultExecutor "/sdk/go") "1.17.1").2 = Some err
  ∧ Install (λ _, None) (λ _, tar_EOF) linux_amd64 net (defaultExecutor "/sdk/go")
      "1.17.1" sdk_state = (sdk_state, Return (Some err)).
Proof.
  split; [reflexivity|].
  apply (Install_download_failure (λ _, None) (λ _, tar_EOF) linux_amd64
           (λ _, TransportError (ExternalError "dial tcp: no route to host"))
           (defaultExecutor "/sdk/go") "1.17.1" sdk_state).
  reflexivity.
Defined.

(** ** Extraction: the gzip layer *)

(** C5 (code at the failing input): on the empty buffer, which is not a
    gzip stream, [gzip.NewReader] fails, [unTarGzip] drops that error and
    panics on the first [tr.Next()]; no error is returned. *)
Theorem unTarGzip_empty_buffer_panics gzip_optional_fields inflate_tar
    (target : string) (renamer : option Renamer) (s : os.state) :
  gzip_NewReader gzip_optional_fields [] = Some io_EOF
  ∧ unTarGzip gzip_optional_fields inflate_tar [] target renamer s
    = (s, Panic "invalid memory address or nil pointer dereference").
Proof. split; reflexivity. Qed.

(** The same for every buffer that [gzip.NewReader] rejects. *)
Lemma unTarGzip_invalid_gzip_panics gzip_optional_fields inflate_tar
    (buf : list Byte.byte) (target : string) (renamer : option Renamer)
    (s : os.state) :
  gzip_NewReader gzip_optional_fields buf ≠ None →
  ∃ reason, unTarGzip gzip_optional_fields inflate_tar buf target renamer s
            = (s, Panic reason).
Proof.
  intros H. unfold unTarGzip.
  destruct (gzip_NewReader gzip_optional_fields buf); [eauto|done].
Qed.

(** ** Paths *)

Lemma Split_nonempty (sep : ascii) (s : string) : strings.Split sep s ≠ [].
Proof. destruct s as [|c s]; cbn; [done|]. destruct (Ascii.eqb c sep); [done|].
  by destruct (strings.Split sep s). Qed.

Lemma Split_no_slash (s : string) : Forall no_slash (strings.Split "/" s).
Proof.
  induction s as [|c s IH]; cbn; [by repeat constructor|].
  destruct (Ascii.eqb c "/") eqn:Hc; [by constructor|].
  destruct (strings.Split "/" s) as [|x xs]; [by constructor; [unfold no_slash; cbn; rewrite Hc|]|].
  inversion IH; subst. constructor; [|done]. unfold no_slash in *. cbn. by rewrite Hc.
Qed.

Lemma Split_app_sep (a b : string) :
  strings.Split "/" (a +:+ String "/" b) = strings.Split "/" a ++ strings.Split "/" b.
Proof.
  induction a as [|c a IH].
  - rewrite str_app_nil_l. reflexivity.
  - rewrite str_app_cons. cbn. rewrite IH.
    destruct (Ascii.eqb c "/"); [done|].
    pose proof (Split_nonempty "/" a). by destruct (strings.Split "/" a).
Qed.

Lemma Split_no_slash_id (s : string) : no_slash s → strings.Split "/" s = [s].
Proof.
  unfold no_slash. induction s as [|c s IH]; cbn; [done|].
  intros [Hc Hs]%andb_true_iff. apply negb_true_iff in Hc. rewrite Hc, (IH Hs). done.
Qed.

Lemma Split_concat (l : list string) :
  Forall no_slash l → l ≠ [] → strings.Split "/" (String.concat "/" l) = l.
Proof.
  induction 1 as [|x l Hx Hl IH]; [done|]. intros _.
  destruct l as [|y l].
  - cbn. by apply Split_no_slash_id.
  - change (String.concat "/" (x :: y :: l)) with (x +:+ String "/" (String.concat "/" (y :: l))).
    rewrite Split_app_sep, IH by done. by rewrite Split_no_slash_id.
Qed.

Lemma plain_no_slash (l : list string) : Forall plain_name l → Forall no_slash l.
Proof. intros H. eapply Forall_impl; [done|]. by intros n (_ & _ & _ & ?). Qed.

Lemma filter_nonempty_plain (l : list string) :
  Forall plain_name l → filter (λ e, e ≠ "") l = l.
Proof.
  induction 1 as [|x l Hx Hl IH]; [done|].
  rewrite filter_cons, IH. destruct Hx as [Hx _]. by rewrite decide_True.
Qed.

Lemma elems_mkpath (rooted : bool) (names : list string) :
  Forall plain_name names → os.elems (os.mkpath rooted names) = names.
Proof.
  intros Hn. unfold os.elems, os.mkpath, strings.Join.
  destruct names as [|n names].
  - by destruct rooted.
  - assert (strings.Split "/" (String.concat "/" (n :: names)) = n :: names) as Hs
      by (apply Split_concat; [by apply plain_no_slash|done]).
    destruct rooted.
    + change ("/" +:+ ?x) with ("" +:+ String "/" x). rewrite Split_app_sep, Hs.
      cbn [strings.Split app]. rewrite filter_cons, decide_False by (by intros []).
      by apply filter_nonempty_plain.
    + rewrite str_app_nil_l, Hs. by apply filter_nonempty_plain.
Qed.

Lemma mkpath_abs (names : list string) : filepath.IsAbs (os.mkpath true names) = true.
Proof. reflexivity. Qed.

Lemma mkpath_nonempty (names : list string) : os.mkpath true names ≠ "".
Proof. done. Qed.

Lemma clean_elems_plain (rooted : bool) (out l : list string) :
  Forall (λ e, e ≠ "." ∧ e ≠ "..") l →
  filepath.clean_elems rooted out l = rev out ++ filter (λ e, e ≠ "") l.
Proof.
  intros Hl. revert out.
  induction Hl as [|e l [He1 He2] Hl IH]; intros out; cbn [filepath.clean_elems].
  - by rewrite filter_nil, app_nil_r.
  - rewrite filter_cons. case_bool_decide as Hd.
    + destruct Hd as [-> | ->]; [|done]. rewrite decide_False by naive_solver. apply IH.
    + rewrite bool_decide_eq_false_2 by done.
      rewrite decide_True by naive_solver. rewrite IH. cbn. by rewrite <-app_assoc.
Qed.

(** Joining a clean absolute path with a relative one whose names are
    not [.] or [..]. *)
Lemma Join_mkpath (root : list string) (x : string) :
  Forall plain_name root →
  Forall (λ e, e ≠ "." ∧ e ≠ "..") (strings.Split "/" x) →
  filepath.Join [os.mkpath true root; x] = os.mkpath true (root ++ os.elems x).
Proof.
  intros Hroot Hx. cbn [filepath.Join].
  rewrite bool_decide_eq_false_2 by done.
  unfold strings.Join. cbn [String.concat].
  unfold filepath.Clean.
  assert (filepath.IsAbs (os.mkpath true root +:+ "/" +:+ x) = true) as -> by done.
  change (os.mkpath true root +:+ "/" +:+ x)
    with (os.mkpath true root +:+ String "/" x).
  rewrite Split_app_sep, clean_elems_plain.
  - cbn [rev app]. rewrite filter_app.
    fold (os.elems (os.mkpath true root)). fold (os.elems x).
    by rewrite elems_mkpath.
  - apply Forall_app. split; [|done].
    apply Forall_forall. intros e He.
    destruct (decide (e = "")) as [->|Hne]; [done|].
    assert (e ∈ os.elems (os.mkpath true root)) as Hin
      by (by apply list_elem_of_filter).
    rewrite elems_mkpath in Hin by done.
    rewrite Forall_forall in Hroot. destruct (Hroot e Hin) as (_ & ? & ? & _). done.
Qed.

Lemma Join_mkpath_name (root : list string) (v : string) :
  Forall plain_name root → plain_name v →
  filepath.Join [os.mkpath true root; v] = os.mkpath true (root ++ [v]).
Proof.
  intros Hroot Hv. rewrite Join_mkpath; [|done|].
  - unfold os.elems. destruct Hv as (? & ? & ? & Hs).
    rewrite Split_no_slash_id by done. rewrite filter_cons, decide_True by done. done.
  - destruct Hv as (? & ? & ? & Hs). rewrite Split_no_slash_id by done.
    by repeat constructor.
Qed.

Lemma elems_plain (x : string) :
  Forall (λ e, e ≠ "." ∧ e ≠ "..") (os.elems x) → Forall plain_name (os.elems x).
Proof.
  intros H. apply Forall_forall. intros e He.
  rewrite Forall_forall in H. destruct (H e He) as [??].
  apply list_elem_of_filter in He as [Hne Hin].
  pose proof (Split_no_slash x) as Hs. rewrite Forall_forall in Hs.
  repeat split; auto.
Qed.

Lemma elems_unarchiveRenamer (name : string) :
  os.elems (unarchiveRenamer name)
  = filter (λ e, e ≠ "") (drop 1 (strings.Split "/" name)).
Proof.
  unfold unarchiveRenamer, os.elems, strings.Join, filepath.Separator.
  pose proof (Split_no_slash name) as Hs.
  destruct (strings.Split "/" name) as [|w l]; [done|]. cbn [drop].
  inversion Hs; subst.
  destruct l as [|y l]; [done|]. by rewrite Split_concat.
Qed.

Lemma Split_unarchiveRenamer (name : string) :
  Forall (λ e, e ≠ "." ∧ e ≠ "..") (os.elems (unarchiveRenamer name)) →
  Forall (λ e, e ≠ "." ∧ e ≠ "..") (strings.Split "/" (unarchiveRenamer name)).
Proof.
  intros H. apply Forall_forall. intros e He.
  destruct (decide (e = "")) as [->|Hne]; [done|].
  rewrite Forall_forall in H. apply H. by apply list_elem_of_filter.
Qed.

(** ** Path resolution on plain paths *)

Lemma walk_nil fuel t follow cur : os.walk fuel t follow cur [] = inr cur.
Proof. by destruct fuel. Qed.

Lemma walk_dir fuel t follow cur e rest perm :
  plain_name e → t !! (cur ++ [e]) = Some (os.Dir perm) →
  os.walk fuel t follow cur (e :: rest) = os.walk fuel t follow (cur ++ [e]) rest.
Proof.
  intros (_ & H1 & H2 & _) Ht.
  destruct fuel; cbn; rewrite !bool_decide_eq_false_2 by done; by rewrite Ht.
Qed.

Lemma walk_last fuel t follow cur e :
  plain_name e →
  (follow = false ∨ ∀ tg, t !! (cur ++ [e]) ≠ Some (os.Symlink tg)) →
  os.walk fuel t follow cur [e] = inr (cur ++ [e]).
Proof.
  intros (_ & H1 & H2 & _) Hl.
  destruct fuel; cbn; rewrite !bool_decide_eq_false_2 by done;
    destruct (t !! (cur ++ [e])) as [[| |tg]|] eqn:Ht; try done;
    destruct Hl as [-> | Hl]; try done; by destruct (Hl tg).
Qed.

Lemma walk_missing fuel t follow cur e r rest :
  plain_name e → t !! (cur ++ [e]) = None →
  os.walk fuel t follow cur (e :: r :: rest) = inl ENOENT.
Proof.
  intros (_ & H1 & H2 & _) Ht.
  destruct fuel; cbn; rewrite !bool_decide_eq_false_2 by done; by rewrite Ht.
Qed.

Lemma walk_file fuel t follow cur e r rest perm data :
  plain_name e → t !! (cur ++ [e]) = Some (os.File perm data) →
  os.walk fuel t follow cur (e :: r :: rest) = inl ENOTDIR.
Proof.
  intros (_ & H1 & H2 & _) Ht.
  destruct fuel; cbn; rewrite !bool_decide_eq_false_2 by done; by rewrite Ht.
Qed.


Lemma dirs_at_cons t cur e names :
  dirs_at t cur (e :: names) →
  (∃ perm, t !! (cur ++ [e]) = Some (os.Dir perm)) ∧ dirs_at t (cur ++ [e]) names.
Proof.
  intros H. split.
  - apply (H [e]); [|done]. by apply prefix_cons, prefix_nil.
  - intros pre Hpre Hne. rewrite <-app_assoc. apply (H (e :: pre)); [|done].
    by apply prefix_cons.
Qed.

Lemma walk_dirs fuel t follow cur A B :
  Forall plain_name A → dirs_at t cur A →
  os.walk fuel t follow cur (A ++ B) = os.walk fuel t follow (cur ++ A) B.
Proof.
  intros HA. revert cur. induction HA as [|a A Ha HA IH]; intros cur Hd.
  - by rewrite app_nil_r.
  - apply dirs_at_cons in Hd as [[perm Hp] Hd].
    cbn [app]. rewrite (walk_dir _ _ _ _ _ _ perm) by done.
    rewrite IH by done. by rewrite <-app_assoc.
Qed.

Lemma resolve_mkpath (s : os.state) follow names :
  Forall plain_name names →
  os.resolve s follow (os.mkpath true names)
  = os.walk os.MAXSYMLINKS (os.tree s) follow [] names.
Proof.
  intros Hn. unfold os.resolve.
  rewrite bool_decide_eq_false_2 by done.
  by rewrite mkpath_abs, elems_mkpath.
Qed.

(** The location of a name in a directory reached through directories. *)
Lemma resolve_plain (s : os.state) follow dirs x :
  Forall plain_name dirs → plain_name x → dirs_at (os.tree s) [] dirs →
  (follow = false ∨ ∀ tg, os.tree s !! (dirs ++ [x]) ≠ Some (os.Symlink tg)) →
  os.resolve s follow (os.mkpath true (dirs ++ [x])) = inr (dirs ++ [x]).
Proof.
  intros Hd Hx Hdirs Hl.
  rewrite resolve_mkpath by (apply Forall_app; split; [done|by constructor]).
  rewrite walk_dirs by done. by apply walk_last.
Qed.

Lemma resolve_dirs (s : os.state) follow dirs :
  Forall plain_name dirs → dirs_at (os.tree s) [] dirs →
  os.resolve s follow (os.mkpath true dirs) = inr dirs.
Proof.
  intros Hd Hdirs. rewrite resolve_mkpath by done.
  rewrite <-(app_nil_r dirs) at 1. rewrite walk_dirs by done. apply walk_nil.
Qed.

Lemma Stat_dirs (s : os.state) dirs :
  Forall plain_name dirs → dirs_at (os.tree s) [] dirs →
  ∃ perm, os.Stat s (os.mkpath true dirs) = inr (os.Dir perm).
Proof.
  intros Hd Hdirs. unfold os.Stat, os.stat_gen. rewrite resolve_dirs by done.
  destruct dirs as [|d dirs _] using rev_ind; [by eexists|].
  destruct (Hdirs (dirs ++ [d])) as [perm Hp]; [done|by destruct dirs|].
  cbn in Hp. unfold os.lookup. destruct (dirs ++ [d]) eqn:E; [by destruct dirs|].
  rewrite Hp. by eexists.
Qed.

(** A path that runs into a missing name does not [Stat]. *)
Lemma Stat_missing (s : os.state) dirs x rest :
  Forall plain_name (dirs ++ x :: rest) → dirs_at (os.tree s) [] dirs →
  os.tree s !! (dirs ++ [x]) = None →
  os.Stat s (os.mkpath true (dirs ++ x :: rest)) = inl ENOENT.
Proof.
  intros Hn Hdirs Hx. unfold os.Stat, os.stat_gen.
  rewrite resolve_mkpath by done.
  apply Forall_app in Hn as [Hd Hn]. inversion Hn as [|?? Hpx Hrest]; subst.
  rewrite walk_dirs by done. cbn [app].
  destruct rest as [|r rest].
  - rewrite walk_last; [|done|right; intros tg; by rewrite Hx].
    unfold os.lookup. destruct (dirs ++ [x]) eqn:E; [by destruct dirs|].
    by rewrite Hx.
  - by rewrite walk_missing.
Qed.

Lemma dir_path_dirs_at t cur names : dir_path t cur names = true → dirs_at t cur names.
Proof.
  revert cur. induction names as [|n names IH]; intros cur H pre Hpre Hne.
  - by apply prefix_nil_inv in Hpre.
  - cbn in H. destruct (t !! (cur ++ [n])) as [[perm| |]|] eqn:Hl; try done.
    destruct pre as [|x pre]; [done|].
    pose proof (prefix_cons_inv_1 _ _ _ _ Hpre) as ->.
    apply prefix_cons_inv_2 in Hpre.
    destruct pre as [|y pre]; [by eexists|].
    rewrite (cons_middle n), app_assoc. by apply IH.
Qed.

Lemma empty_below_lookup root t rel :
  empty_below root t → rel ≠ [] → t !! (root ++ rel) = None.
Proof.
  intros He Hne. destruct (t !! (root ++ rel)) eqn:Hl; [|done].
  destruct (He _ _ Hl). split; [by apply prefix_app_r|].
  intros Heq. rewrite <-(app_nil_r root) in Heq at 2.
  by apply app_inv_head in Heq.
Qed.

(** ** The current link: a version that is not installed *)

(** C6: when [root/<version>] is not a directory, [Use] returns
    [ErrVersionNotInstalled] and the filesystem, with any [current] link
    in it, is left as it was. *)
Theorem Use_not_installed (e : executor) (version : Version) (s : os.state) :
  Fs e = afero.OsFs →
  (∀ perm, os.Stat s (filepath.Join [InstallPath e; Version_String version])
           ≠ inr (os.Dir perm)) →
  Use e version s = (s, Some ErrVersionNotInstalled).
Proof.
  intros HFs Hnodir. unfold Use, afero.DirExists. rewrite HFs.
  destruct (os.Stat s _) as [[]|[perm| |]] eqn:Hstat; cbn; try reflexivity.
  by destruct (Hnodir perm).
Qed.

Lemma Use_not_installed_witness :
  (∀ perm, os.Stat (os.mkState sdk_tree_current_link [])
             (filepath.Join ["/sdk/go"; "9.9.9"]) ≠ inr (os.Dir perm))
  ∧ Use (defaultExecutor "/sdk/go") "9.9.9" (os.mkState sdk_tree_current_link [])
    = (os.mkState sdk_tree_current_link [], Some ErrVersionNotInstalled).
Proof.
  split; [intros perm; vm_compute; discriminate|].
  apply (Use_not_installed (defaultExecutor "/sdk/go") "9.9.9"
           (os.mkState sdk_tree_current_link [])).
  - reflexivity.
  - intros perm. vm_compute. discriminate.
Defined.

(** ** The current link: switching *)

Lemma lookup_nonroot (t : gmap (list string) os.node) (dirs : list string) (x : string) :
  os.lookup t (dirs ++ [x]) = t !! (dirs ++ [x]).
Proof. unfold os.lookup. by destruct dirs. Qed.

Lemma Split_mkpath_snoc (root : list string) (v : string) :
  Forall plain_name root → plain_name v →
  strings.Split "/" (os.mkpath true (root ++ [v])) = "" :: root ++ [v].
Proof.
  intros Hr Hv. unfold os.mkpath, strings.Join.
  change ("/" +:+ ?x) with ("" +:+ String "/" x). rewrite Split_app_sep.
  rewrite Split_concat; [done| |by destruct root].
  apply plain_no_slash, Forall_app. split; [done|by constructor].
Qed.

Lemma drop_trailing_empty_snoc (l : list string) (v : string) :
  v ≠ "" → filepath.drop_trailing_empty (l ++ [v]) = l ++ [v].
Proof.
  intros Hv. induction l as [|x l IH]; cbn.
  - by rewrite bool_decide_eq_false_2.
  - rewrite IH. by destruct l.
Qed.

Lemma Base_mkpath (root : list string) (v : string) :
  Forall plain_name root → plain_name v →
  filepath.Base (os.mkpath true (root ++ [v])) = v.
Proof.
  intros Hr Hv. unfold filepath.Base.
  rewrite bool_decide_eq_false_2 by done.
  unfold filepath.Separator. rewrite Split_mkpath_snoc by done.
  rewrite (app_comm_cons _ _ ""), drop_trailing_empty_snoc by apply Hv.
  by rewrite last_snoc.
Qed.

Lemma Remove_removable (s : os.state) (root : list string) (x : string) :
  Forall plain_name root → plain_name x → dirs_at (os.tree s) [] root →
  removable (os.tree s) (root ++ [x]) →
  (os.Remove s (os.mkpath true (root ++ [x]))).1
  = os.with_tree s (delete (root ++ [x]) (os.tree s)).
Proof.
  intros Hr Hx Hd Hrm. unfold os.Remove, removable in *.
  rewrite resolve_plain by auto.
  destruct (os.tree s !! (root ++ [x])) as [[perm|perm data|tg]|] eqn:Ht; cbn.
  - by rewrite Hrm.
  - done.
  - done.
  - rewrite delete_id by done. by destruct s.
Qed.

Lemma Symlink_fresh (s : os.state) (root : list string) (x oldname : string) :
  Forall plain_name root → plain_name x → dirs_at (os.tree s) [] root →
  os.tree s !! (root ++ [x]) = None →
  os.Symlink_ s oldname (os.mkpath true (root ++ [x]))
  = (os.with_tree s (<[root ++ [x] := os.Symlink oldname]> (os.tree s)), None).
Proof.
  intros Hr Hx Hd Hn. unfold os.Symlink_.
  rewrite resolve_plain by auto. by rewrite lookup_nonroot, Hn.
Qed.

Lemma dirs_at_insert t root k n :
  ¬ k `prefix_of` root → dirs_at t [] root → dirs_at (<[k := n]> t) [] root.
Proof.
  intros Hk Hd pre Hpre Hne. destruct (Hd pre Hpre Hne) as [perm Hp].
  exists perm. cbn in *. rewrite lookup_insert_ne; [done|]. by intros ->.
Qed.

Lemma dirs_at_delete t root k :
  ¬ k `prefix_of` root → dirs_at t [] root → dirs_at (delete k t) [] root.
Proof.
  intros Hk Hd pre Hpre Hne. destruct (Hd pre Hpre Hne) as [perm Hp].
  exists perm. cbn in *. rewrite lookup_delete_ne; [done|]. by intros ->.
Qed.

Lemma snoc_not_prefix {A} (l : list A) (x : A) : ¬ (l ++ [x]) `prefix_of` l.
Proof.
  intros H%prefix_length. rewrite length_app in H. cbn in H. lia.
Qed.

(** [Use] on an installed version: the link is replaced. *)
Lemma Use_installed (e : executor) (root : list string) (v : Version)
    (s : os.state) (perm : N) :
  Fs e = afero.OsFs → InstallPath e = os.mkpath true root →
  Forall plain_name root → plain_name v →
  dirs_at (os.tree s) [] root →
  os.tree s !! (root ++ [v]) = Some (os.Dir perm) →
  removable (os.tree s) (root ++ ["current"]) →
  Use e v s
  = (os.with_tree s (<[root ++ ["current"] := os.Symlink (os.mkpath true (root ++ [v]))]>
                       (os.tree s)), None).
Proof.
  intros HFs HIP Hr Hv Hd Hdir Hrm. unfold Use, Version_String. cbv zeta.
  rewrite HFs, HIP, !Join_mkpath_name by done.
  unfold afero.DirExists, os.Stat, os.stat_gen.
  assert (os.resolve s true (os.mkpath true (root ++ [v])) = inr (root ++ [v])) as ->.
  { apply resolve_plain; [done..|]. right. intros tg. by rewrite Hdir. }
  rewrite lookup_nonroot, Hdir. cbn [os.is_dir].
  pose proof (Remove_removable s root "current" Hr ltac:(done) Hd Hrm) as HR.
  destruct (os.Remove s _) as [s1 r1]. cbn in HR. subst s1.
  rewrite Symlink_fresh; [|done|done| |].
  - cbn. by rewrite insert_delete_eq.
  - cbn. apply dirs_at_delete; [apply snoc_not_prefix|done].
  - cbn. apply lookup_delete_eq.
Qed.

Lemma current_linked (e : executor) (root : list string) (v : Version) (s : os.state) :
  Fs e = afero.OsFs → InstallPath e = os.mkpath true root →
  Forall plain_name root → plain_name v →
  dirs_at (os.tree s) [] root →
  os.tree s !! (root ++ ["current"]) = Some (os.Symlink (os.mkpath true (root ++ [v]))) →
  current e s = ParseVersion v.
Proof.
  intros HFs HIP Hr Hv Hd Hl. unfold current. cbv zeta.
  rewrite HFs, HIP, Join_mkpath_name by done.
  unfold os.Readlink. rewrite resolve_plain by (done || by left).
  by rewrite lookup_nonroot, Hl, Base_mkpath.
Qed.





(** ** [MkdirAll] and file creation below directories *)

Lemma prefix_app_cases {A} (k a b : list A) :
  k `prefix_of` a ++ b →
  k `prefix_of` a ∨ ∃ m, k = a ++ m ∧ m `prefix_of` b ∧ m ≠ [].
Proof.
  intros Hk.
  destruct (prefix_weak_total k a (a ++ b) Hk (prefix_app_r a a b (reflexivity a)))
    as [?|[m ->]]; [by left|].
  destruct m as [|x m]; [left; by rewrite app_nil_r|].
  right. exists (x :: m). split; [done|]. split; [|done]. by eapply prefix_app_inv.
Qed.

Lemma prefix_snoc_cases {A} (k l : list A) (x : A) :
  k `prefix_of` l ++ [x] → k `prefix_of` l ∨ k = l ++ [x].
Proof.
  intros [?|(m & -> & Hm & Hne)]%prefix_app_cases; [by left|right].
  destruct m as [|y m]; [done|]. destruct Hm as [r Hr].
  destruct m; [|by destruct m]. by injection Hr as ->.
Qed.

Lemma made_dirs_refl t names perm :
  dirs_at t [] names → made_dirs t t names perm.
Proof.
  intros Hd k. destruct (t !! k) eqn:Hk; [done|].
  case_decide as Hdec; [|done]. destruct Hdec as [Hne Hpre].
  destruct (Hd k Hpre Hne) as [p Hp]. cbn in Hp. congruence.
Qed.

Lemma MkdirAll_names_unfold s rooted rnames perm :
  os.MkdirAll_names s rooted rnames perm
  = let p := os.mkpath rooted (rev rnames) in
    match os.Stat s p with
    | inr n =>
        if os.is_dir n then (s, None) else (s, Some (PathError "mkdir" ENOTDIR))
    | inl _ =>
        let '(s1, r) :=
          match rnames with
          | _ :: parent =>
              match parent with
              | [] => (s, None)
              | _ => os.MkdirAll_names s rooted parent perm
              end
          | [] => (s, None)
          end in
        match r with
        | Some err => (s1, Some err)
        | None =>
            match os.Mkdir s1 p perm with
            | (s2, None) => (s2, None)
            | (s2, Some err) =>
                match os.Lstat s2 p with
                | inr (os.Dir _) => (s2, None)
                | _ => (s2, Some err)
                end
            end
        end
    end.
Proof. by destruct rnames. Qed.

Lemma with_tree_id (s : os.state) : os.with_tree s (os.tree s) = s.
Proof. by destruct s. Qed.

Lemma may_create_in_lookup (s s' : os.state) (dir : list string) :
  os.tree s' !! dir = os.tree s !! dir →
  os.superuser s' = os.superuser s →
  os.may_create_in s' dir = os.may_create_in s dir.
Proof.
  intros Hl Hsu. unfold os.may_create_in, os.permits. by rewrite Hl, Hsu.
Qed.

Lemma may_create_in_dir (s : os.state) (dir : list string) (perm : N) :
  dir ≠ [] → os.tree s !! dir = Some (os.Dir perm) →
  os.may_create_in s dir = os.permits s perm 192.
Proof. intros Hne Hl. unfold os.may_create_in. rewrite Hl. by destruct dir. Qed.

Lemma MkdirAll_names_spec (s : os.state) (have missing : list string) (perm : N) :
  Forall plain_name (have ++ missing) → have ++ missing ≠ [] →
  dirs_at (os.tree s) [] have →
  (∀ m, m `prefix_of` missing → m ≠ [] → os.tree s !! (have ++ m) = None) →
  (missing ≠ [] → os.may_create_in s have = true) →
  os.permits s (os.create_mode s perm) 192 = true →
  ∃ t', os.MkdirAll_names s true (rev (have ++ missing)) perm = (os.with_tree s t', None)
        ∧ made_dirs (os.tree s) t' (have ++ missing) (os.create_mode s perm).
Proof.
  induction missing as [|m ms IH] using rev_ind; intros Hplain Hne Hd Hmiss Hwr Hperm.
  - rewrite app_nil_r in *. exists (os.tree s).
    rewrite MkdirAll_names_unfold. cbv zeta. rewrite rev_involutive.
    destruct (Stat_dirs s have Hplain Hd) as [p ->]. cbn.
    rewrite with_tree_id. split; [done|]. by apply made_dirs_refl.
  - rewrite app_assoc in *. rewrite rev_unit.
    rewrite MkdirAll_names_unfold. cbv zeta. cbn [rev]. rewrite rev_involutive.
    apply Forall_app in Hplain as [Hplain Hm].
    assert (os.Stat s (os.mkpath true ((have ++ ms) ++ [m])) = inl ENOENT) as ->.
    { rewrite <-app_assoc. destruct ms as [|x ms'].
      - apply Stat_missing; [|done|].
        + apply Forall_app. split; [|done]. by rewrite app_nil_r in Hplain.
        + apply Hmiss; [done|done].
      - cbn [app]. apply Stat_missing.
        + apply Forall_app in Hplain as [H1 H2]. apply Forall_app. split; [done|].
          rewrite app_comm_cons. by apply Forall_app.
        + done.
        + apply (Hmiss [x]); [|done]. by apply prefix_cons, prefix_nil. }
    assert (∃ t1, match rev (have ++ ms) with
                  | [] => (s, None)
                  | _ :: _ => os.MkdirAll_names s true (rev (have ++ ms)) perm
                  end = (os.with_tree s t1, None)
                  ∧ made_dirs (os.tree s) t1 (have ++ ms) (os.create_mode s perm))
      as (t1 & -> & Ht1).
    { destruct (decide (have ++ ms = [])) as [Hnil|Hnn].
      - rewrite Hnil. cbn. exists (os.tree s). rewrite with_tree_id. split; [done|].
        intros k. destruct (os.tree s !! k); [done|].
        rewrite decide_False; [done|]. intros [? ?%prefix_nil_inv]. done.
      - destruct (IH Hplain Hnn Hd) as (t1 & Heq & Ht1).
        { intros m' Hm' Hne'. apply Hmiss; [|done]. by apply prefix_app_r. }
        { intros _. apply Hwr. by destruct ms. }
        { done. }
        exists t1. split; [|done].
        destruct (rev (have ++ ms)) eqn:Hrev; [|done].
        apply (f_equal (@rev _)) in Hrev. rewrite rev_involutive in Hrev. done. }
    assert (dirs_at t1 [] (have ++ ms)) as Hd1.
    { intros pre Hpre Hpne. cbn. rewrite (Ht1 pre).
      destruct (os.tree s !! pre) as [n|] eqn:Hn.
      - apply prefix_app_cases in Hpre as [Hpre|(m' & -> & Hm' & Hne')].
        + destruct (Hd pre Hpre Hpne) as [p Hp]. cbn in Hp. exists p. congruence.
        + rewrite Hmiss in Hn; [done| |done]. by apply prefix_app_r.
      - rewrite decide_True by done. by eexists. }
    assert (t1 !! ((have ++ ms) ++ [m]) = None) as Hnone.
    { rewrite (Ht1 _). rewrite <-app_assoc, Hmiss by (done || by destruct ms).
      rewrite decide_False; [done|]. intros [_ H]. rewrite app_assoc in H.
      by apply prefix_snoc_not in H. }
    assert (os.may_create_in (os.with_tree s t1) (have ++ ms) = true) as Hparent.
    { destruct ms as [|x ms'].
      - rewrite app_nil_r in *.
        rewrite (may_create_in_lookup s); [by apply Hwr| |done].
        cbn [os.tree os.with_tree]. rewrite (Ht1 _).
        destruct (os.tree s !! have) eqn:Hl; [done|].
        rewrite decide_False; [done|]. intros [Hne' _].
        destruct (Hd have) as [p Hp]; [done|done|]. cbn in Hp. congruence.
      - rewrite (may_create_in_dir _ _ (os.create_mode s perm)); [done|by destruct have|].
        cbn [os.tree os.with_tree].
        rewrite (Ht1 _), Hmiss by (done || by apply prefix_app_r).
        rewrite decide_True; [done|]. split; [by destruct have|done]. }
    unfold os.Mkdir.
    rewrite resolve_plain; [|done|by inversion Hm|done|by left].
    rewrite lookup_nonroot. cbn [os.tree os.with_tree]. rewrite Hnone.
    rewrite removelast_last, Hparent.
    eexists. split; [reflexivity|].
    change (os.create_mode (os.with_tree s t1) perm) with (os.create_mode s perm).
    intros k. destruct (decide (k = (have ++ ms) ++ [m])) as [->|Hk].
    + rewrite lookup_insert_eq. rewrite <-app_assoc, Hmiss by (done || by destruct ms).
      rewrite decide_True; [done|]. split; [by destruct have, ms|]. by rewrite app_assoc.
    + rewrite lookup_insert_ne by done. rewrite (Ht1 k).
      destruct (os.tree s !! k); [done|].
      destruct (decide (k ≠ [] ∧ k `prefix_of` have ++ ms)) as [[? Hp]|Hn].
      * rewrite decide_True; [done|]. split; [done|]. by apply prefix_app_r.
      * rewrite decide_False; [done|]. intros [? Hp]. apply Hn. split; [done|].
        by apply prefix_snoc_cases in Hp as [?|?].
Qed.

Lemma MkdirAll_spec (s : os.state) (have missing : list string) (perm : N) :
  Forall plain_name (have ++ missing) →
  dirs_at (os.tree s) [] have →
  (∀ m, m `prefix_of` missing → m ≠ [] → os.tree s !! (have ++ m) = None) →
  (missing ≠ [] → os.may_create_in s have = true) →
  os.permits s (os.create_mode s perm) 192 = true →
  ∃ t', os.MkdirAll s (os.mkpath true (have ++ missing)) perm = (os.with_tree s t', None)
        ∧ made_dirs (os.tree s) t' (have ++ missing) (os.create_mode s perm).
Proof.
  intros Hplain Hd Hmiss Hwr Hperm. unfold os.MkdirAll.
  rewrite elems_mkpath, mkpath_abs by done.
  case_bool_decide as Hnil.
  - exists (os.tree s). rewrite Hnil. cbn. rewrite with_tree_id. split; [done|].
    intros k. destruct (os.tree s !! k); [done|].
    rewrite decide_False; [done|]. intros [? ?%prefix_nil_inv]. done.
  - by apply MkdirAll_names_spec.
Qed.

(** Creating and writing a new file in a directory reached through
    directories. *)
Lemma OpenFile_write_new (s : os.state) (dirs : list string) (f : string)
    (perm : N) (data : list Byte.byte) :
  Forall plain_name dirs → plain_name f → dirs_at (os.tree s) [] dirs →
  os.tree s !! (dirs ++ [f]) = None →
  os.may_create_in s dirs = true →
  ∃ s1, os.OpenFile_create_trunc s (os.mkpath true (dirs ++ [f])) perm
        = (s1, inr (dirs ++ [f]))
        ∧ os.write s1 (dirs ++ [f]) data
          = os.with_tree s (<[dirs ++ [f] := os.File (os.create_mode s perm) data]>
                              (os.tree s)).
Proof.
  intros Hd Hf Hdirs Hn Hwr. unfold os.OpenFile_create_trunc.
  rewrite resolve_plain; [|done..|right; intros tg; by rewrite Hn].
  rewrite lookup_nonroot, Hn, removelast_last, Hwr. eexists. split; [done|].
  unfold os.write. cbn. rewrite lookup_insert_eq. cbn.
  by rewrite insert_insert_eq.
Qed.

(** ** Extraction *)

Lemma dirs_at_app t a b :
  dirs_at t [] a → dirs_at t a b → dirs_at t [] (a ++ b).
Proof.
  intros Ha Hb pre Hpre Hne.
  apply prefix_app_cases in Hpre as [Hpre|(m & -> & Hm & Hmne)]; [by apply Ha|].
  cbn. by apply Hb.
Qed.

Lemma open_path_dir_path s cur names :
  open_path s cur names = true → dir_path (os.tree s) cur names = true.
Proof.
  revert cur. induction names as [|n names IH]; intros cur; cbn; [done|].
  destruct (os.tree s !! (cur ++ [n])) as [[perm| |]|]; try done.
  intros [_ H]%andb_true_iff. by apply IH.
Qed.

Lemma workable_dirs_at s names : workable s names → dirs_at (os.tree s) [] names.
Proof. intros [H _]. by apply dir_path_dirs_at, open_path_dir_path. Qed.

Lemma dirs_at_root um root t0 entries t :
  extracted um root t0 entries t → dirs_at t0 [] root → dirs_at t [] root.
Proof.
  intros Hex Hd pre Hpre Hne. cbn. rewrite (ex_out _ _ _ _ _ Hex); [by apply Hd|].
  intros rel Hrel ->. apply prefix_length in Hpre. rewrite length_app in Hpre.
  destruct rel; [done|]. cbn in Hpre. lia.
Qed.

Lemma extracted_lookup_root um root t0 entries t :
  extracted um root t0 entries t → t !! root = t0 !! root.
Proof.
  intros Hex. apply (ex_out _ _ _ _ _ Hex). intros rel Hne Heq.
  rewrite <-(app_nil_r root) in Heq at 1. by apply app_inv_head in Heq.
Qed.

Lemma split_present (t : gmap (list string) os.node) (base rel : list string) :
  (∀ pre, pre `prefix_of` rel → pre ≠ [] →
     t !! (base ++ pre) = None ∨ ∃ perm, t !! (base ++ pre) = Some (os.Dir perm)) →
  tree_shaped base t →
  ∃ have missing, rel = have ++ missing ∧ dirs_at t base have
    ∧ ∀ m, m `prefix_of` missing → m ≠ [] → t !! (base ++ have ++ m) = None.
Proof.
  intros Hkind Hshape. induction rel as [|x rel IH] using rev_ind.
  - exists [], []. split; [done|]. split.
    + intros pre ->%prefix_nil_inv. done.
    + intros m ->%prefix_nil_inv. done.
  - destruct IH as (have & missing & -> & Hd & Hmiss).
    { intros pre Hpre Hne. apply Hkind; [|done]. by apply prefix_app_r. }
    destruct missing as [|y ms].
    + rewrite app_nil_r in *.
      destruct (Hkind (have ++ [x])) as [Hn|[perm Hp]]; [done|by destruct have|..].
      * exists have, [x]. split; [done|]. split; [done|].
        intros m Hm Hne. destruct m as [|z m]; [done|].
        destruct Hm as [r Hr]. injection Hr as <- Hr.
        destruct m; [done|done].
      * exists (have ++ [x]), []. split; [by rewrite app_nil_r|]. split.
        -- intros pre [?| ->]%prefix_snoc_cases Hne; [by apply Hd|by eexists].
        -- intros m ->%prefix_nil_inv. done.
    + exists have, ((y :: ms) ++ [x]). split; [by rewrite app_assoc|]. split; [done|].
      intros m [Hm| ->]%prefix_snoc_cases Hne; [by apply Hmiss|].
      destruct (t !! (base ++ have ++ (y :: ms) ++ [x])) eqn:Hl; [|done].
      destruct (Hshape (have ++ y :: ms) x) as [perm Hp]; [by destruct have| |].
      * rewrite <-app_assoc. by rewrite Hl.
      * rewrite Hmiss in Hp; done.
Qed.

Lemma entry_path (root : list string) (h : Header) :
  Forall plain_name root →
  Forall (λ n, n ≠ "." ∧ n ≠ "..") (rel_names h) →
  filepath.Join [os.mkpath true root; unarchiveRenamer (Name h)]
  = os.mkpath true (root ++ rel_names h)
  ∧ Forall plain_name (rel_names h).
Proof.
  unfold rel_names. rewrite <-elems_unarchiveRenamer. intros Hroot Hdots. split.
  - apply Join_mkpath; [done|]. by apply Split_unarchiveRenamer.
  - by apply elems_plain.
Qed.

Lemma app_ne_nil_r {A} (a b : list A) : b ≠ [] → a ++ b ≠ [].
Proof. intros Hb. by destruct a, b. Qed.

Section step.

Context (root : list string) (t0 : gmap (list string) os.node)
        (done : list entry) (s : os.state) (h : Header) (body : list Byte.byte).
Hypothesis Hroot : Forall plain_name root.
Hypothesis Hroot0 : dirs_at t0 [] root.
Hypothesis Hex : extracted (os.umask s) root t0 done (os.tree s).
Hypothesis Hshape : tree_shaped root (os.tree s).
Hypothesis Hok : entry_ok done (h, body).
Hypothesis Hwr : os.may_create_in s root = true.
Hypothesis Huse : dirs_usable s (done ++ [(h, body)]).

(** The process may make entries in the target and in every directory
    that the entries so far have made below it. *)
Lemma below_root_writable (rel : list string) :
  dirs_at (os.tree s) root rel → os.may_create_in s (root ++ rel) = true.
Proof using All.
  intros Hd. destruct (decide (rel = [])) as [->|Hne]; [by rewrite app_nil_r|].
  destruct (Hd rel) as [perm Hp]; [done|done|].
  destruct (ex_dir_mode _ _ _ _ _ Hex rel perm Hne Hp) as (h' & b' & Hin & Hdir & _ & ->).
  rewrite (may_create_in_dir _ _ _ (app_ne_nil_r root rel Hne) Hp).
  unfold dirs_usable in Huse. rewrite Forall_forall in Huse.
  apply (Huse (h', b')); [|done]. rewrite elem_of_app. by left.
Qed.

(** A file entry: the file is new, its directory is there. *)
Lemma step_file :
  IsDir h = false →
  ∃ t' s1 file,
    os.OpenFile_create_trunc s
      (filepath.Join [os.mkpath true root; unarchiveRenamer (Name h)]) (Mode h)
    = (s1, inr file)
    ∧ os.write s1 file body = os.with_tree s t'
    ∧ extracted (os.umask s) root t0 (done ++ [(h, body)]) t'
    ∧ tree_shaped root t'.
Proof using All.
  intros Hisfile. destruct Hok as (Hdots & Hnofile & Hfile). cbn [fst] in *.
  destruct (Hfile Hisfile) as (Hne & Hfresh & Hparent). clear Hfile.
  destruct (entry_path root h Hroot Hdots) as [-> Hplain].
  rewrite Forall_forall in Hfresh.
  remember (rel_names h) as rel eqn:Hrel.
  destruct rel as [|f parent _] using rev_ind; [done|]. clear Hne.
  rewrite removelast_last in Hparent.
  apply Forall_app in Hplain as [Hpp Hpf]. inversion Hpf as [|?? Hf _]; subst.
  pose proof (dirs_at_root _ _ _ _ _ Hex Hroot0) as Hd.
  assert (dirs_at (os.tree s) root parent) as Hdp.
  { intros pre Hpre Hpne. destruct Hparent as [->|Hexi].
    - by apply prefix_nil_inv in Hpre.
    - apply Exists_exists in Hexi as ([h' b'] & Hin & Hdir & Hpp').
      apply (ex_dir _ _ _ _ _ Hex); [done|]. exists h', b'.
      split; [done|]. split; [done|]. by etrans. }
  assert (os.tree s !! (root ++ parent ++ [f]) = None) as Hnone.
  { destruct (os.tree s !! (root ++ parent ++ [f])) as [[perm|perm data|tg]|] eqn:Hl;
      [| |by apply (ex_link _ _ _ _ _ Hex) in Hl; [|by destruct parent]|done].
    - assert (∃ h' b', (h', b') ∈ done ∧ IsDir h' = true
                       ∧ (parent ++ [f]) `prefix_of` rel_names h')
        as (h' & b' & Hin & _ & Hp).
      { apply (ex_dir _ _ _ _ _ Hex); [by destruct parent|by eexists]. }
      by destruct (Hfresh _ Hin).
    - apply (ex_file _ _ _ _ _ Hex) in Hl as (h' & Hin & _ & Hn & _);
        [|by destruct parent].
      destruct (Hfresh _ Hin). cbn. by rewrite Hn. }
  destruct (OpenFile_write_new s (root ++ parent) f (Mode h) body)
    as (s1 & Hopen & Hwrite).
  { by apply Forall_app. } { done. } { by apply dirs_at_app. }
  { by rewrite <-app_assoc. } { by apply below_root_writable. }
  rewrite <-!app_assoc in Hopen, Hwrite.
  eexists _, s1, _. split; [exact Hopen|]. split; [exact Hwrite|].
  set (rel := parent ++ [f]) in *.
  assert (rel ≠ []) as Hrne by (by destruct parent).
  assert (∀ rel', rel' ≠ rel → root ++ rel' ≠ root ++ rel) as Hinj
    by (intros rel' ? ?%app_inv_head; done).
  split; [split|].
  - intros k Hk. rewrite lookup_insert_ne by (intros <-; by apply (Hk rel)).
    by apply (ex_out _ _ _ _ _ Hex).
  - intros rel' perm data Hne'. destruct (decide (rel' = rel)) as [->|Hneq].
    + rewrite lookup_insert_eq. split.
      * intros [= <- <-]. exists h. rewrite elem_of_app, list_elem_of_singleton. auto.
      * intros (h' & [Hin|[= -> ->]%list_elem_of_singleton]%elem_of_app & _ & Hn & Hm).
        -- destruct (Hfresh _ Hin). cbn. by rewrite Hn.
        -- by rewrite <-Hm.
    + rewrite lookup_insert_ne by (by apply not_eq_sym, Hinj).
      rewrite (ex_file _ _ _ _ _ Hex) by done. split.
      * intros (h' & Hin & ?). exists h'. rewrite elem_of_app. auto.
      * intros (h' & [Hin|[= -> ->]%list_elem_of_singleton]%elem_of_app & ? & Hn & ?).
        -- by exists h'.
        -- by rewrite <-Hrel in Hn.
  - intros rel' Hne'. destruct (decide (rel' = rel)) as [->|Hneq].
    + rewrite lookup_insert_eq. split; [by intros [? [=]]|].
      intros (h' & b' & [Hin|[= -> ->]%list_elem_of_singleton]%elem_of_app & Hdir & Hp).
      * by destruct (Hfresh _ Hin).
      * congruence.
    + rewrite lookup_insert_ne by (by apply not_eq_sym, Hinj).
      rewrite (ex_dir _ _ _ _ _ Hex) by done. split.
      * intros (h' & b' & Hin & ?). exists h', b'. rewrite elem_of_app. auto.
      * intros (h' & b' & [Hin|[= -> ->]%list_elem_of_singleton]%elem_of_app & Hdir & ?).
        -- by exists h', b'.
        -- congruence.
  - intros rel' perm Hne'. destruct (decide (rel' = rel)) as [->|Hneq].
    + by rewrite lookup_insert_eq.
    + rewrite lookup_insert_ne by (by apply not_eq_sym, Hinj). intros Hl.
      destruct (ex_dir_mode _ _ _ _ _ Hex rel' perm Hne' Hl) as (h' & b' & Hin & ?).
      exists h', b'. rewrite elem_of_app. auto.
  - intros rel' tg Hne'. destruct (decide (rel' = rel)) as [->|Hneq].
    + by rewrite lookup_insert_eq.
    + rewrite lookup_insert_ne by (by apply not_eq_sym, Hinj).
      by apply (ex_link _ _ _ _ _ Hex).
  - intros rel' x Hne' Hsome.
    destruct (decide (rel' ++ [x] = rel)) as [Heq|Hneq].
    + apply app_inj_tail in Heq as [-> ->].
      destruct (Hdp parent) as [perm Hp]; [done|done|].
      exists perm. rewrite lookup_insert_ne; [done|].
      intros Hk%app_inv_head. unfold rel in Hk.
      apply (f_equal length) in Hk. rewrite length_app in Hk. cbn in Hk. lia.
    + rewrite lookup_insert_ne in Hsome by (by apply not_eq_sym, Hinj).
      destruct (Hshape rel' x Hne' Hsome) as [perm Hp]. exists perm.
      rewrite lookup_insert_ne; [done|]. intros Hk. rewrite <-Hk in Hp. congruence.
Qed.

(** A directory entry: the missing directories on its path are made. *)
Lemma step_dir :
  IsDir h = true →
  ∃ t',
    os.MkdirAll s
      (filepath.Join [os.mkpath true root; unarchiveRenamer (Name h)]) (Mode h)
    = (os.with_tree s t', None)
    ∧ extracted (os.umask s) root t0 (done ++ [(h, body)]) t'
    ∧ tree_shaped root t'.
Proof using All.
  intros Hisdir. destruct Hok as (Hdots & Hnofile & _). cbn [fst] in *.
  destruct (entry_path root h Hroot Hdots) as [-> Hplain].
  rewrite Forall_forall in Hnofile.
  pose proof (dirs_at_root _ _ _ _ _ Hex Hroot0) as Hd.
  set (rel := rel_names h) in *.
  assert (∀ pre, pre `prefix_of` rel → pre ≠ [] →
            os.tree s !! (root ++ pre) = None
            ∨ ∃ perm, os.tree s !! (root ++ pre) = Some (os.Dir perm)) as Hkind.
  { intros pre Hpre Hpne.
    destruct (os.tree s !! (root ++ pre)) as [[perm|perm data|tg]|] eqn:Hl;
      [right; by eexists| |by apply (ex_link _ _ _ _ _ Hex) in Hl|by left].
    apply (ex_file _ _ _ _ _ Hex) in Hl as (h' & Hin & Hf & Hn & _); [|done].
    destruct (Hnofile _ Hin Hf). cbn. by rewrite Hn. }
  destruct (split_present (os.tree s) root rel Hkind Hshape)
    as (have & missing & Hrel & Hhave & Hmiss).
  assert (os.permits s (mode_less (os.umask s) (Mode h)) 192 = true) as Hmode.
  { unfold dirs_usable in Huse. rewrite Forall_forall in Huse.
    apply (Huse (h, body)); [|done]. rewrite elem_of_app, list_elem_of_singleton. auto. }
  destruct (MkdirAll_spec s (root ++ have) missing (Mode h)) as (t' & Hmk & Hmade).
  { rewrite <-app_assoc, <-Hrel. by apply Forall_app. }
  { by apply dirs_at_app. }
  { intros m Hm Hne. rewrite <-app_assoc. by apply Hmiss. }
  { intros _. by apply below_root_writable. }
  { done. }
  rewrite <-app_assoc, <-Hrel in Hmk, Hmade.
  exists t'. split; [exact Hmk|].
  assert (∀ rel', rel' ≠ [] →
            t' !! (root ++ rel')
            = match os.tree s !! (root ++ rel') with
              | Some n => Some n
              | None => if decide (rel' `prefix_of` rel)
                        then Some (os.Dir (mode_less (os.umask s) (Mode h))) else None
              end) as Hlook.
  { intros rel' Hne'. rewrite (Hmade _).
    destruct (os.tree s !! (root ++ rel')); [done|].
    destruct (decide (rel' `prefix_of` rel)) as [Hp|Hp].
    - rewrite decide_True; [done|]. split; [by apply app_ne_nil_r|by apply prefix_app].
    - rewrite decide_False; [done|]. intros [_ Hp']. by apply prefix_app_inv in Hp'. }
  assert (∀ rel', rel' ≠ [] →
            (∃ perm, t' !! (root ++ rel') = Some (os.Dir perm))
            ↔ ∃ h' b', (h', b') ∈ done ++ [(h, body)] ∧ IsDir h' = true
                       ∧ rel' `prefix_of` rel_names h') as Hdirs.
  { intros rel' Hne'. rewrite Hlook by done. split.
    - intros [perm Hp].
      destruct (os.tree s !! (root ++ rel')) as [n|] eqn:Hl.
      + injection Hp as ->.
        assert (∃ h' b', (h', b') ∈ done ∧ IsDir h' = true
                         ∧ rel' `prefix_of` rel_names h') as (h' & b' & ? & ?)
          by (apply (ex_dir _ _ _ _ _ Hex); [done|by eexists]).
        exists h', b'. rewrite elem_of_app. auto.
      + case_decide; [|done]. exists h, body.
        rewrite elem_of_app, list_elem_of_singleton. auto.
    - intros (h' & b' & [Hin|[= -> ->]%list_elem_of_singleton]%elem_of_app & Hdir & Hp).
      + assert (∃ perm, os.tree s !! (root ++ rel') = Some (os.Dir perm))
          as [perm ->] by (apply (ex_dir _ _ _ _ _ Hex); [done|by exists h', b']).
        by eexists.
      + destruct (Hkind rel' Hp Hne') as [-> | [perm ->]]; [|by eexists].
        rewrite decide_True by done. by eexists. }
  split; [split|]; [| | exact Hdirs | | |].
  - intros k Hk. rewrite (Hmade _), <-(ex_out _ _ _ _ _ Hex) by done.
    destruct (os.tree s !! k) eqn:Hl; [done|].
    rewrite decide_False; [done|]. intros [Hkne Hpre].
    apply prefix_app_cases in Hpre as [Hpre|(m & -> & _ & Hmne)].
    + destruct (Hd k Hpre Hkne) as [perm Hp]. cbn in Hp. congruence.
    + by apply (Hk m).
  - intros rel' perm data Hne'. rewrite Hlook by done.
    assert (match os.tree s !! (root ++ rel') with
            | Some n => Some n
            | None => if decide (rel' `prefix_of` rel)
                      then Some (os.Dir (mode_less (os.umask s) (Mode h))) else None
            end = Some (os.File perm data)
            ↔ os.tree s !! (root ++ rel') = Some (os.File perm data)) as ->.
    { destruct (os.tree s !! (root ++ rel')); [done|]. by case_decide. }
    rewrite (ex_file _ _ _ _ _ Hex) by done. split.
    + intros (h' & Hin & ?). exists h'. rewrite elem_of_app. auto.
    + intros (h' & [Hin|[= -> ->]%list_elem_of_singleton]%elem_of_app & Hf & ?).
      * by exists h'.
      * congruence.
  - intros rel' perm Hne'. rewrite Hlook by done.
    destruct (os.tree s !! (root ++ rel')) as [n|] eqn:Hl.
    + intros [= ->].
      destruct (ex_dir_mode _ _ _ _ _ Hex rel' perm Hne' Hl) as (h' & b' & Hin & ?).
      exists h', b'. rewrite elem_of_app. auto.
    + case_decide; [|done]. intros [= <-]. exists h, body.
      rewrite elem_of_app, list_elem_of_singleton. auto.
  - intros rel' tg Hne'. rewrite Hlook by done.
    destruct (os.tree s !! (root ++ rel')) eqn:Hl.
    + rewrite <-Hl. by apply (ex_link _ _ _ _ _ Hex).
    + by case_decide.
  - intros rel' x Hne' Hsome. apply Hdirs; [done|].
    rewrite (Hlook (rel' ++ [x])) in Hsome by (by apply app_ne_nil_r).
    destruct (os.tree s !! (root ++ rel' ++ [x])) eqn:Hl.
    + assert (∃ perm, t' !! (root ++ rel') = Some (os.Dir perm)) as Hdir.
      { rewrite Hlook by done.
        destruct (Hshape rel' x Hne') as [perm ->]; [by rewrite Hl|by eexists]. }
      by apply Hdirs in Hdir.
    + case_decide as Hp; [|by destruct Hsome].
      exists h, body. rewrite elem_of_app, list_elem_of_singleton.
      split; [by right|]. split; [done|]. by eapply prefix_app_l.
Qed.

End step.

(** Before the first entry: an empty target. *)
Lemma extracted_nil (um : N) (root : list string) (t : gmap (list string) os.node) :
  empty_below root t → extracted um root t [] t ∧ tree_shaped root t.
Proof.
  intros Hempty. split; [split|].
  - done.
  - intros rel perm data Hne. rewrite empty_below_lookup by done.
    split; [done|]. by intros (h & ?%elem_of_nil & _).
  - intros rel Hne. rewrite empty_below_lookup by done.
    split; [by intros [? ?]|]. by intros (h & b & ?%elem_of_nil & _).
  - intros rel perm Hne. by rewrite empty_below_lookup.
  - intros rel tg Hne. by rewrite empty_below_lookup.
  - intros rel x Hne. rewrite empty_below_lookup by (by destruct rel).
    by intros [? ?].
Qed.

Lemma untar_loop_extract (root : list string) (t0 : gmap (list string) os.node)
    (todo done : list entry) (s : os.state) :
  Forall plain_name root → dirs_at t0 [] root →
  os.tree s !! root = t0 !! root →
  os.may_create_in s root = true →
  dirs_usable s (done ++ todo) →
  extracted (os.umask s) root t0 done (os.tree s) → tree_shaped root (os.tree s) →
  extractable done todo →
  ∀ rest,
  ∃ t', untar_loop (stream_then todo rest) (os.mkpath true root)
          (Some unarchiveRenamer) s
        = untar_loop rest (os.mkpath true root) (Some unarchiveRenamer)
            (os.with_tree s t')
        ∧ extracted (os.umask s) root t0 (done ++ todo) t'.
Proof.
  intros Hroot Hroot0. revert done s.
  induction todo as [|[h body] todo IH];
    intros done s Hlr Hwr Huse Hex Hshape Hok rest.
  - exists (os.tree s). rewrite with_tree_id, app_nil_r. done.
  - destruct Hok as [Hok Hrest]. cbn [stream_then untar_loop].
    assert (dirs_usable s (done ++ [(h, body)])) as Huse1.
    { unfold dirs_usable in *. rewrite (cons_middle _ done todo), app_assoc in Huse.
      by apply Forall_app in Huse as [? _]. }
    assert (∀ t1, extracted (os.umask s) root t0 (done ++ [(h, body)]) t1 →
                  os.tree (os.with_tree s t1) !! root = t0 !! root
                  ∧ os.may_create_in (os.with_tree s t1) root = true) as Hnext.
    { intros t1 Hex1. pose proof (extracted_lookup_root _ _ _ _ _ Hex1) as Hl1.
      split; [done|].
      rewrite (may_create_in_lookup s); [done| |done]. cbn. by rewrite Hl1. }
    destruct (IsDir h) eqn:Hdir.
    + destruct (step_dir root t0 done s h body Hroot Hroot0 Hex Hshape Hok Hwr Huse1 Hdir)
        as (t1 & -> & Hex1 & Hshape1).
      destruct (Hnext t1 Hex1) as [Hlr1 Hwr1].
      destruct (IH (done ++ [(h, body)]) (os.with_tree s t1) Hlr1 Hwr1) with (rest := rest)
        as (t' & -> & Hex'); [by rewrite <-app_assoc|done|done|done|].
      exists t'. by rewrite <-app_assoc in Hex'.
    + destruct (step_file root t0 done s h body Hroot Hroot0 Hex Hshape Hok Hwr Huse1 Hdir)
        as (t1 & s1 & file & -> & -> & Hex1 & Hshape1).
      destruct (Hnext t1 Hex1) as [Hlr1 Hwr1].
      destruct (IH (done ++ [(h, body)]) (os.with_tree s t1) Hlr1 Hwr1) with (rest := rest)
        as (t' & -> & Hex'); [by rewrite <-app_assoc|done|done|done|].
      exists t'. by rewrite <-app_assoc in Hex'.
Qed.

Lemma stream_then_EOF (entries : list entry) :
  stream_then entries tar_EOF = stream_of entries.
Proof. induction entries as [|[h b] es IH]; [done|]. cbn. by rewrite IH. Qed.

(** C1 (amended): an archive whose entries can be placed one after the
    other (names below the wrapper segment free of [.] and [..], every
    file in the target itself or in a directory that an earlier
    directory entry made, no path taken twice by a file or used both as
    a file and as a directory) and whose directories are open to the
    process (it may write and search them with their mode less the
    umask), extracted with [unarchiveRenamer] into an empty directory
    that a clean absolute path leads to through real directories which
    the process may search, and in which it may make entries:
    [unTarGzip] returns no error, and below the target there are
    exactly the files of the file entries, at the segments of their
    names without the first, with the entries' contents and their
    modes less the umask, and the directories of the directory entries;
    nothing else changes. *)
Theorem unTarGzip_round_trip gzip_optional_fields inflate_tar
    (buf : list Byte.byte) (entries : list entry) (root : list string)
    (s : os.state) :
  gzip_NewReader gzip_optional_fields buf = None →
  inflate_tar buf = stream_of entries →
  extractable [] entries → dirs_usable s entries →
  Forall plain_name root → workable s root →
  empty_below root (os.tree s) →
  ∃ t', unTarGzip gzip_optional_fields inflate_tar buf (os.mkpath true root)
          (Some unarchiveRenamer) s = (os.with_tree s t', Return None)
        ∧ extracted (os.umask s) root (os.tree s) entries t'.
Proof.
  intros Hgz Htar Hok Huse Hroot Hwork Hempty. unfold unTarGzip. rewrite Hgz, Htar.
  pose proof (workable_dirs_at s root Hwork) as Hd. destruct Hwork as [_ Hwr].
  destruct (extracted_nil (os.umask s) root (os.tree s) Hempty) as [Hex Hshape].
  destruct (untar_loop_extract root (os.tree s) entries [] s Hroot Hd eq_refl Hwr
              Huse Hex Hshape Hok tar_EOF) as (t' & Hloop & Hex').
  exists t'. rewrite stream_then_EOF in Hloop. by split.
Qed.

Lemma unTarGzip_round_trip_witness :
  ∃ t', unTarGzip (λ _, None) (λ _, stream_of go_archive) gzip_magic
          "/sdk/go/1.17.1" (Some unarchiveRenamer)
          (os.mkProcess sdk_tree_installed [] 23 false)
        = (os.mkProcess t' [] 23 false, Return None)
        ∧ extracted 23 ["sdk"; "go"; "1.17.1"] sdk_tree_installed go_archive t'
        ∧ t' !! ["sdk"; "go"; "1.17.1"; "bin"; "go"]
          = Some (os.File 488 [Byte.x7f; Byte.x45; Byte.x4c; Byte.x46])
        ∧ t' !! ["sdk"; "go"; "1.17.1"; "VERSION"]
          = Some (os.File 416 [Byte.x67; Byte.x6f]).
Proof.
  destruct (unTarGzip_round_trip (λ _, None) (λ _, stream_of go_archive) gzip_magic
              go_archive ["sdk"; "go"; "1.17.1"]
              (os.mkProcess sdk_tree_installed [] 23 false))
    as (t' & Hrun & Hex).
  - reflexivity.
  - reflexivity.
  - refine (bool_decide_unpack _ _); vm_compute; exact I.
  - refine (bool_decide_unpack _ _); vm_compute; exact I.
  - refine (bool_decide_unpack _ _); vm_compute; exact I.
  - refine (bool_decide_unpack _ _); vm_compute; exact I.
  - refine (bool_decide_unpack _ _); vm_compute; exact I.
  - exists t'. split; [exact Hrun|]. split; [exact Hex|]. split.
    + apply (ex_file _ _ _ _ _ Hex ["bin"; "go"]); [discriminate|].
      exists (mkHeader "go/bin/go" false 493).
      split; [unfold go_archive; rewrite !elem_of_cons; auto|].
      split; [reflexivity|]. split; vm_compute; reflexivity.
    + apply (ex_file _ _ _ _ _ Hex ["VERSION"]); [discriminate|].
      exists (mkHeader "go/VERSION" false 420).
      split; [unfold go_archive; rewrite !elem_of_cons; auto|].
      split; [reflexivity|]. split; vm_compute; reflexivity.
Defined.

(** C1 (as stated, refuted): the archive with the entries [go/bin/go]
    and [go/VERSION] and no directory entry has every entry behind one
    wrapper segment, yet its extraction fails: [OpenFile] does not make
    the directory [bin], and nothing is extracted. *)
Lemma unTarGzip_files_without_directory_entries :
  unTarGzip (λ _, None) (λ _, stream_of go_archive_files_only) gzip_magic
    "/sdk/go/1.17.1" (Some unarchiveRenamer) (os.mkState sdk_tree_installed [])
  = (os.mkState sdk_tree_installed [], Return (Some (PathError "open" ENOENT))).
Proof. vm_compute. reflexivity. Qed.

(** ** Installing a version that is not there yet *)

(** What the kernel stores is the mode less the umask. *)
Lemma create_mode_less (s : os.state) (perm : N) :
  os.create_mode s perm = mode_less (os.umask s) perm.
Proof. reflexivity. Qed.

Lemma MkdirAll_fresh_child (s : os.state) (root : list string) (x : string) (perm : N) :
  Forall plain_name root → plain_name x → dirs_at (os.tree s) [] root →
  os.tree s !! (root ++ [x]) = None →
  os.may_create_in s root = true →
  os.MkdirAll s (os.mkpath true (root ++ [x])) perm
  = (os.with_tree s (<[root ++ [x] := os.Dir (os.create_mode s perm)]> (os.tree s)),
     None).
Proof.
  intros Hroot Hx Hd Hnone Hwr. unfold os.MkdirAll.
  assert (Forall plain_name (root ++ [x])) as Hplain
    by (apply Forall_app; split; [done|by constructor]).
  rewrite elems_mkpath, mkpath_abs by done.
  rewrite bool_decide_eq_false_2 by (by destruct root).
  rewrite rev_unit, MkdirAll_names_unfold. cbv zeta. cbn [rev].
  rewrite rev_involutive, Stat_missing by done.
  assert (match rev root with
          | [] => (s, None)
          | _ :: _ => os.MkdirAll_names s true (rev root) perm
          end = (s, None)) as ->.
  { destruct (rev root) eqn:Hrev; [done|].
    rewrite <-Hrev, MkdirAll_names_unfold. cbv zeta. rewrite rev_involutive.
    by destruct (Stat_dirs s root Hroot Hd) as [p ->]. }
  unfold os.Mkdir. rewrite resolve_plain by (done || by left).
  by rewrite lookup_nonroot, Hnone, removelast_last, Hwr.
Qed.

(** The version directory, once made, is a target as the extraction
    wants it. *)
Lemma version_dir_ready (s : os.state) (root : list string) (version : string) :
  Forall plain_name root → plain_name version →
  dirs_at (os.tree s) [] root →
  empty_below (root ++ [version]) (os.tree s) →
  os.permits s (mode_less (os.umask s) os.ModePerm) 192 = true →
  let t1 := <[root ++ [version] := os.Dir (mode_less (os.umask s) os.ModePerm)]> (os.tree s) in
  Forall plain_name (root ++ [version])
  ∧ dirs_at t1 [] (root ++ [version])
  ∧ os.may_create_in (os.with_tree s t1) (root ++ [version]) = true
  ∧ empty_below (root ++ [version]) t1.
Proof.
  intros Hroot Hv Hd Hempty Hperm t1. split; [|split; [|split]].
  - apply Forall_app. split; [done|by constructor].
  - intros pre [Hpre| ->]%prefix_snoc_cases Hne.
    + destruct (Hd pre Hpre Hne) as [perm Hp]. exists perm. cbn in *.
      unfold t1. rewrite lookup_insert_ne; [done|].
      intros <-. by apply prefix_snoc_not in Hpre.
    + eexists. cbn. unfold t1. by rewrite lookup_insert_eq.
  - rewrite (may_create_in_dir _ _ (mode_less (os.umask s) os.ModePerm));
      [done|by destruct root|].
    cbn [os.tree os.with_tree]. unfold t1. by rewrite lookup_insert_eq.
  - unfold t1. apply map_Forall_insert_2; [|done]. by intros [_ ?].
Qed.

(** [Install] of a version without a directory under the install root:
    the directory is made and the archive extracted into it. *)
Lemma Install_fresh gzip_optional_fields inflate_tar host net
    (e : executor) (version : Version) (root : list string)
    (buf : list Byte.byte) (entries : list entry) (s : os.state) :
  InstallPath e = os.mkpath true root →
  Forall plain_name root → plain_name version →
  workable s root →
  os.permits s (mode_less (os.umask s) os.ModePerm) 192 = true →
  os.tree s !! (root ++ [version]) = None →
  empty_below (root ++ [version]) (os.tree s) →
  dlArchive host net e version = (buf, None) →
  gzip_NewReader gzip_optional_fields buf = None →
  inflate_tar buf = stream_of entries →
  extractable [] entries → dirs_usable s entries →
  ∃ t', Install gzip_optional_fields inflate_tar host net e version s
        = (os.with_tree s t', Return None)
        ∧ extracted (os.umask s) (root ++ [version])
            (<[root ++ [version] := os.Dir (mode_less (os.umask s) os.ModePerm)]> (os.tree s))
            entries t'.
Proof.
  intros HIP Hroot Hv Hwork Hperm Hnone Hempty Hdl Hgz Htar Hok Huse.
  pose proof (workable_dirs_at s root Hwork) as Hd. destruct Hwork as [_ Hwr].
  unfold Install, Version_String. cbv zeta.
  rewrite Hdl, HIP, Join_mkpath_name by done.
  rewrite MkdirAll_fresh_child, create_mode_less by done.
  destruct (version_dir_ready s root version Hroot Hv Hd Hempty Hperm)
    as (Hroot1 & Hd1 & Hwr1 & Hempty1).
  set (t1 := <[root ++ [version] := os.Dir (mode_less (os.umask s) os.ModePerm)]> (os.tree s))
    in *.
  destruct (extracted_nil (os.umask s) _ _ Hempty1) as [Hex Hshape].
  destruct (untar_loop_extract (root ++ [version]) t1 entries [] (os.with_tree s t1)
              Hroot1 Hd1 eq_refl Hwr1 Huse Hex Hshape Hok tar_EOF)
    as (t' & Hloop & Hex').
  rewrite stream_then_EOF in Hloop.
  unfold unTarGzip. rewrite Hgz, Htar, Hloop. by exists t'.
Qed.

(** ** The inventory *)

Global Instance byName_total : Total afero.byName.
Proof. intros a b. unfold afero.byName. apply (total String.le). Qed.

Global Instance byName_trans : Transitive afero.byName.
Proof. intros a b c. unfold afero.byName. apply (transitivity (R:=String.le)). Qed.

Lemma StronglySorted_filter_list {A} (R : relation A) (P : A → Prop)
    `{∀ x, Decision (P x)} (l : list A) :
  StronglySorted R l → StronglySorted R (filter P l).
Proof.
  induction 1 as [|x l Hl IH Hx]; [constructor|].
  rewrite filter_cons. case_decide; [|done].
  constructor; [done|].
  apply Forall_forall. intros y Hy%list_elem_of_filter.
  rewrite Forall_forall in Hx. apply Hx, Hy.
Qed.

Lemma ReadDir_sorted (s : os.state) (dirname : string) fis :
  afero.ReadDir s dirname = inr fis → StronglySorted afero.byName fis.
Proof.
  unfold afero.ReadDir. destruct (os.Readdir s dirname); [done|].
  intros [= <-]. apply StronglySorted_merge_sort; apply _.
Qed.

Lemma child_name_Some (dir k : list string) (name : string) :
  os.child_name dir k = Some name ↔ k = dir ++ [name].
Proof.
  revert k. induction dir as [|d dir IH]; intros k; cbn.
  - destruct k as [|x [|y k]]; split; (done || by intros [= ->]).
  - destruct k as [|x k]; [done|].
    case_decide as Hd; [subst; rewrite IH|]; split; (done || intros [= ?]; by subst).
Qed.

Lemma elem_of_children (t : gmap (list string) os.node) (dir : list string)
    (name : string) (n : os.node) :
  (name, n) ∈ os.children t dir ↔ t !! (dir ++ [name]) = Some n.
Proof.
  unfold os.children. rewrite list_elem_of_omap. split.
  - intros [[k n'] [Hin Hsome]]. apply elem_of_map_to_list in Hin.
    cbn in Hsome. destruct (os.child_name dir k) as [name'|] eqn:Hc; [|done].
    cbn in Hsome. injection Hsome as -> ->.
    apply child_name_Some in Hc. by subst.
  - intros Hl. exists (dir ++ [name], n). split.
    + by apply elem_of_map_to_list.
    + cbn. by rewrite (proj2 (child_name_Some dir _ name) eq_refl).
Qed.

Lemma children_names_NoDup (t : gmap (list string) os.node) (dir : list string) :
  NoDup (os.children t dir).*1.
Proof.
  unfold os.children.
  pose proof (NoDup_fst_map_to_list t) as Hnd.
  induction (map_to_list t) as [|[k n] l IH]; [constructor|].
  cbn in Hnd. apply NoDup_cons in Hnd as [Hk Hnd]. cbn.
  destruct (os.child_name dir k) as [name|] eqn:Hc; cbn; [|by apply IH].
  apply NoDup_cons. split; [|by apply IH].
  intros Hin. apply list_elem_of_fmap in Hin as ([name' n'] & Hname & Hin).
  cbn in Hname. subst name'.
  apply list_elem_of_omap in Hin as ([k' n''] & Hin' & Hf). cbn in Hf.
  destruct (os.child_name dir k') as [name''|] eqn:Hc'; [|done].
  cbn in Hf. injection Hf as -> ->.
  apply child_name_Some in Hc, Hc'. subst. apply Hk.
  apply list_elem_of_fmap. by exists (dir ++ [name], n').
Qed.

Lemma NoDup_fmap_filter {A B} (f : A → B) (P : A → Prop) `{∀ x, Decision (P x)}
    (l : list A) :
  NoDup (f <$> l) → NoDup (f <$> filter P l).
Proof.
  induction l as [|x l IH]; [done|]. rewrite fmap_cons.
  intros [Hx Hl]%NoDup_cons. rewrite filter_cons. case_decide; [|by apply IH].
  rewrite fmap_cons. apply NoDup_cons. split; [|by apply IH].
  intros Hin. apply Hx. apply list_elem_of_fmap in Hin as (y & -> & Hy).
  apply list_elem_of_fmap. exists y. split; [done|].
  by apply list_elem_of_filter in Hy as [_ ?].
Qed.

(** What [list] returns when it succeeds: the names of the real
    directories in the directory of the install path, each once, in
    ascending order. *)
Lemma list_spec (e : executor) (s : os.state) (vs : list Version) :
  list_ e s = (vs, None) →
  ∃ loc, os.resolve s true (InstallPath e) = inr loc
    ∧ StronglySorted String.le vs ∧ NoDup vs
    ∧ ∀ name, name ∈ vs ↔ ∃ perm, os.tree s !! (loc ++ [name]) = Some (os.Dir perm).
Proof.
  intros Hl.
  assert (StronglySorted String.le vs) as Hsorted.
  { unfold list_ in Hl.
    destruct (afero.ReadDir s (InstallPath e)) as [err|fis] eqn:Hrd; [done|].
    injection Hl as <-. apply ReadDir_sorted in Hrd.
    apply (StronglySorted_fmap os.Name afero.byName String.le); [done|].
    by apply StronglySorted_filter_list. }
  unfold list_, afero.ReadDir, os.Readdir in Hl.
  destruct (os.resolve s true (InstallPath e)) as [err|loc]; [done|].
  destruct (os.lookup (os.tree s) loc) as [[perm0| |]|]; try done.
  injection Hl as <-. exists loc. split; [done|]. split; [done|]. split.
  - apply (NoDup_fmap_filter os.Name).
    rewrite merge_sort_Permutation, <-list_fmap_compose.
    apply children_names_NoDup.
  - intros name. rewrite list_elem_of_fmap. split.
    + intros (fi & -> & Hfi). apply list_elem_of_filter in Hfi as [Hdir Hfi].
      rewrite merge_sort_Permutation in Hfi.
      apply list_elem_of_fmap in Hfi as ([nm n] & -> & Hin).
      apply elem_of_children in Hin. cbn in *. destruct n; try done. eauto.
    + intros [perm Hp]. exists (os.mkFileInfo name true). split; [done|].
      apply list_elem_of_filter. split; [done|].
      rewrite merge_sort_Permutation. apply list_elem_of_fmap.
      exists (name, os.Dir perm). split; [done|]. by apply elem_of_children.
Qed.

(** C9: when [list] succeeds, the versions it returns are the
    installed ones (the names of the real directories in the
    directory of the install path, no other name and each once) in
    ascending bytewise order of their names. *)
Theorem list_sorted (e : executor) (s : os.state) (vs : list Version) :
  list_ e s = (vs, None) →
  StronglySorted String.le vs ∧ NoDup vs
  ∧ ∃ loc, os.resolve s true (InstallPath e) = inr loc
      ∧ ∀ name, name ∈ vs ↔ ∃ perm, os.tree s !! (loc ++ [name]) = Some (os.Dir perm).
Proof.
  intros Hl. split.
  - unfold list_ in Hl.
    destruct (afero.ReadDir s (InstallPath e)) as [err|fis] eqn:Hrd; [done|].
    injection Hl as <-. apply ReadDir_sorted in Hrd.
    apply (StronglySorted_fmap os.Name afero.byName String.le); [done|].
    by apply StronglySorted_filter_list.
  - destruct (list_spec e s vs Hl) as (loc & Hloc & _ & Hnd & Hmem).
    split; [done|]. by exists loc.
Qed.

Lemma list_sorted_witness :
  list_ (defaultExecutor "/sdk/go") (os.mkState sdk_tree_mixed [])
  = (["1.16.8"; "1.17.1"; "1.9.0"], None)
  ∧ StronglySorted String.le ["1.16.8"; "1.17.1"; "1.9.0"]
  ∧ NoDup ["1.16.8"; "1.17.1"; "1.9.0"]
  ∧ ∃ loc, os.resolve (os.mkState sdk_tree_mixed []) true "/sdk/go" = inr loc
      ∧ ∀ name, name ∈ ["1.16.8"; "1.17.1"; "1.9.0"]
                ↔ ∃ perm, sdk_tree_mixed !! (loc ++ [name]) = Some (os.Dir perm).
Proof.
  split; [vm_compute; reflexivity|].
  apply (list_sorted (defaultExecutor "/sdk/go") (os.mkState sdk_tree_mixed [])
           ["1.16.8"; "1.17.1"; "1.9.0"]).
  vm_compute. reflexivity.
Defined.


(** C4 (as stated, refuted): with a real directory named [current]
    under the install root, [list] returns that name among the versions. *)
Lemma list_includes_current_directory :
  list_ (defaultExecutor "/sdk/go") (os.mkState sdk_tree_current_dir [])
  = (["1.17.1"; "current"], None).
Proof. vm_compute. reflexivity. Qed.

(** C4 (amended): [list] returns the name [current] exactly when the
    entry of that name under the install root is a real directory; a
    symbolic link, a file or no entry of that name is left out by the
    directory-only filter. *)
Theorem list_current_iff_directory (e : executor) (s : os.state) (vs : list Version) :
  list_ e s = (vs, None) →
  "current" ∈ vs ↔ ∃ loc perm, os.resolve s true (InstallPath e) = inr loc
                   ∧ os.tree s !! (loc ++ ["current"]) = Some (os.Dir perm).
Proof.
  unfold list_, afero.ReadDir, os.Readdir.
  destruct (os.resolve s true (InstallPath e)) as [err|loc]; [done|].
  destruct (os.lookup (os.tree s) loc) as [[perm0| |]|]; try done.
  intros [= <-].
  rewrite list_elem_of_fmap. split.
  - intros (fi & Hname & Hfi). apply list_elem_of_filter in Hfi as [Hdir Hfi].
    rewrite merge_sort_Permutation in Hfi.
    apply list_elem_of_fmap in Hfi as ([nm n] & -> & Hin).
    apply elem_of_children in Hin. cbn in *. subst nm.
    destruct n; try done. eauto.
  - intros (loc' & perm & [= <-] & Hl).
    exists (os.mkFileInfo "current" true). split; [done|].
    apply list_elem_of_filter. split; [done|].
    rewrite merge_sort_Permutation. apply list_elem_of_fmap.
    exists ("current", os.Dir perm). split; [done|]. by apply elem_of_children.
Qed.

Lemma list_current_iff_directory_witness :
  list_ (defaultExecutor "/sdk/go") (os.mkState sdk_tree_current_link [])
  = (["1.17.1"], None)
  ∧ ("current" ∈ ["1.17.1"]
     ↔ ∃ loc perm,
         os.resolve (os.mkState sdk_tree_current_link []) true "/sdk/go" = inr loc
         ∧ sdk_tree_current_link !! (loc ++ ["current"]) = Some (os.Dir perm)).
Proof.
  split; [vm_compute; reflexivity|].
  apply (list_current_iff_directory (defaultExecutor "/sdk/go")
           (os.mkState sdk_tree_current_link []) ["1.17.1"]).
  vm_compute. reflexivity.
Defined.

(** * Further properties *)

(** ** Parsed versions *)

Lemma all_app (f : ascii → bool) (a b : string) :
  strings.all f (a +:+ b) = strings.all f a && strings.all f b.
Proof.
  induction a as [|c a IH]; [done|].
  rewrite str_app_cons. cbn. by rewrite IH, andb_assoc.
Qed.

Lemma all_impl (f g : ascii → bool) (s : string) :
  (∀ c, f c = true → g c = true) → strings.all f s = true → strings.all g s = true.
Proof.
  intros Hfg. induction s as [|c s IH]; [done|]. cbn.
  intros [Hc Hs]%andb_true_iff. by rewrite (Hfg c Hc), IH.
Qed.

Lemma digit_version_char (c : ascii) :
  semver2.is_digit c = true → version_char c = true.
Proof. unfold version_char, semver2.is_ident_char. by intros ->. Qed.

Lemma ident_or_dot_version_char (c : ascii) :
  semver2.is_ident_or_dot c = true → version_char c = true.
Proof.
  unfold version_char, semver2.is_ident_or_dot.
  intros [->| ->]%orb_true_iff; [done|]. by rewrite orb_true_r.
Qed.

Lemma tag_text_chars (c : ascii) (ids : string) :
  version_char c = true → tag_ok ids →
  strings.all version_char (tag_text c ids) = true.
Proof.
  intros Hc Hok. unfold tag_text. case_bool_decide; [done|].
  destruct Hok as [?|[Hall _]]; [done|]. cbn. rewrite Hc. cbn.
  by eapply all_impl; [apply ident_or_dot_version_char|].
Qed.

Lemma String_chars (v : semver2.Version) :
  version_ok v → strings.all version_char (semver2.String v) = true.
Proof.
  intros (_ & _ & _ & Hpre & Hmeta). rewrite String_eq, !all_app.
  rewrite !(all_impl _ _ _ digit_version_char (fmt_d_digits _)).
  by rewrite !tag_text_chars.
Qed.

Lemma ParseVersion_chars (s : string) (v : Version) :
  ParseVersion s = inr v →
  strings.all version_char v = true
  ∧ ∃ c r, v = String c r ∧ semver2.is_digit c = true.
Proof.
  unfold ParseVersion. destruct (semver2.NewVersion s) as [|sv] eqn:Hs; [done|].
  intros [= <-]. split.
  - by apply String_chars, (NewVersion_ok s).
  - apply String_head_digit.
Qed.

Lemma version_char_not_slash (c : ascii) :
  version_char c = true → negb (Ascii.eqb c "/") = true.
Proof. destruct c as [[] [] [] [] [] [] [] []]; done. Qed.

Lemma version_char_not_percent (c : ascii) :
  version_char c = true → negb (Ascii.eqb c "%") = true.
Proof. destruct c as [[] [] [] [] [] [] [] []]; done. Qed.

Lemma is_digit_not_dot (c : ascii) : semver2.is_digit c = true → c ≠ "."%char.
Proof. by intros H ->. Qed.

Lemma parsed_plain_name (s : string) (v : Version) :
  ParseVersion s = inr v → plain_name v.
Proof.
  intros Hp.
  destruct (ParseVersion_chars s v Hp) as (Hall & c & r & -> & Hc).
  repeat split; try done.
  - intros [= -> _]. done.
  - intros [= -> _]. done.
  - unfold no_slash. by eapply all_impl; [apply version_char_not_slash|].
Qed.

(** A version that [ParseVersion] returns is a plain name: it names one
    entry of a directory, and joined to the install root it gives the
    path of a direct child. *)
Theorem ParseVersion_plain_name (s : string) (v : Version) (root : list string) :
  ParseVersion s = inr v → Forall plain_name root →
  plain_name v
  ∧ filepath.Join [os.mkpath true root; Version_String v] = os.mkpath true (root ++ [v]).
Proof.
  intros Hp Hroot. pose proof (parsed_plain_name s v Hp) as Hplain.
  split; [done|]. unfold Version_String. by apply Join_mkpath_name.
Qed.

Lemma ParseVersion_plain_name_witness :
  ParseVersion "v1.17.1" = inr "1.17.1"
  ∧ plain_name "1.17.1"
  ∧ filepath.Join ["/sdk/go"; "1.17.1"] = "/sdk/go/1.17.1".
Proof.
  split; [vm_compute; reflexivity|].
  apply (ParseVersion_plain_name "v1.17.1" "1.17.1" ["sdk"; "go"]).
  - vm_compute. reflexivity.
  - refine (bool_decide_unpack _ _); vm_compute; exact I.
Defined.

Lemma TrimPrefix_no_v (s : string) :
  strings.HasPrefix s "v" = false → strings.TrimPrefix s "v" = s.
Proof.
  unfold strings.HasPrefix, strings.TrimPrefix.
  by destruct (strings.CutPrefix s "v").
Qed.

Lemma fmt_d_TrimPrefix (n : N) (r : string) :
  strings.TrimPrefix (semver2.fmt_d n +:+ r) "v" = semver2.fmt_d n +:+ r.
Proof.
  destruct (fmt_d_head n) as (c & d & -> & Hc).
  rewrite str_app_cons. unfold strings.TrimPrefix. cbn.
  by rewrite (is_digit_not_v c Hc).
Qed.

(** Missing minor and patch numbers are filled with zero: a version of
    one or two numbers parses to the version of three. *)
Theorem ParseVersion_short_forms (a b : N) :
  a < 2 ^ 63 → b < 2 ^ 63 →
  ParseVersion (semver2.fmt_d a)
  = inr (semver2.fmt_d a +:+ ".0.0")
  ∧ ParseVersion (semver2.fmt_d a +:+ "." +:+ semver2.fmt_d b)
    = inr (semver2.fmt_d a +:+ "." +:+ semver2.fmt_d b +:+ ".0").
Proof.
  intros Ha Hb. split.
  - unfold ParseVersion, semver2.NewVersion, semver2.FindStringSubmatch.
    rewrite <-(str_app_nil_r (semver2.fmt_d a)) at 1.
    rewrite fmt_d_TrimPrefix, match_number_print by done.
    cbn -[semver2.ParseInt semver2.fmt_d].
    rewrite bool_decide_eq_true_2 by done. cbv beta iota.
    rewrite ParseInt_fmt_d by done. reflexivity.
  - unfold ParseVersion, semver2.NewVersion, semver2.FindStringSubmatch.
    rewrite fmt_d_TrimPrefix, match_number_print by done.
    change ("." +:+ ?x) with (String "." x).
    cbn -[semver2.ParseInt semver2.fmt_d semver2.parse_segment
          semver2.match_dot_number semver2.match_tagged].
    unfold semver2.match_dot_number at 1.
    rewrite <-(str_app_nil_r (semver2.fmt_d b)) at 1.
    rewrite match_number_print by done.
    cbn -[semver2.ParseInt semver2.fmt_d semver2.parse_segment].
    rewrite bool_decide_eq_true_2 by done. cbv beta iota.
    rewrite ParseInt_fmt_d by done.
    unfold semver2.parse_segment.
    rewrite bool_decide_eq_false_2 by done.
    rewrite TrimPrefix_dot, ParseInt_fmt_d by done. reflexivity.
Qed.

Lemma ParseVersion_short_forms_witness :
  ParseVersion "1" = inr "1.0.0" ∧ ParseVersion "1.16" = inr "1.16.0".
Proof.
  apply (ParseVersion_short_forms 1 16); reflexivity.
Defined.

(** A number beyond [int64] is refused with the error of the segment,
    not with [ErrInvalidSemVer]. *)
Theorem ParseVersion_out_of_range (n : N) :
  2 ^ 63 ≤ n →
  ParseVersion (semver2.fmt_d n) = inl (ErrVersionSegment (semver2.fmt_d n)).
Proof.
  intros Hn. unfold ParseVersion, semver2.NewVersion, semver2.FindStringSubmatch.
  rewrite <-(str_app_nil_r (semver2.fmt_d n)) at 1.
  rewrite fmt_d_TrimPrefix, match_number_print by done.
  cbn -[semver2.ParseInt semver2.fmt_d].
  rewrite bool_decide_eq_true_2 by done. cbv beta iota.
  assert (semver2.ParseInt (semver2.fmt_d n) = None) as ->; [|done].
  unfold semver2.ParseInt.
  destruct (fmt_d_head n) as (c & r & Heq & _).
  rewrite bool_decide_eq_false_2 by (rewrite Heq; done).
  unfold semver2.fmt_d. rewrite NilEmpty.usu, DecimalN.Unsigned.of_to.
  by rewrite (proj2 (N.ltb_ge _ _) Hn).
Qed.

Lemma ParseVersion_out_of_range_witness :
  ParseVersion "9223372036854775808" = inl (ErrVersionSegment "9223372036854775808").
Proof.
  apply (ParseVersion_out_of_range 9223372036854775808). vm_compute. discriminate.
Defined.

Lemma ParseVersion_reparse (s : string) (v : Version) :
  ParseVersion s = inr v → ParseVersion v = inr v.
Proof.
  unfold ParseVersion.
  destruct (semver2.NewVersion s) as [|sv] eqn:Hs; [done|].
  intros [= <-]. apply NewVersion_ok in Hs.
  by rewrite (NewVersion_String sv Hs).
Qed.

(** ** Splitting and joining *)

Lemma Split_sep_nonempty (sep : ascii) (s : string) : strings.Split sep s ≠ [].
Proof.
  destruct s as [|c s]; cbn; [done|]. destruct (Ascii.eqb c sep); [done|].
  by destruct (strings.Split sep s).
Qed.

Lemma Split_sep_app (sep : ascii) (a b : string) :
  strings.Split sep (a +:+ String sep b) = strings.Split sep a ++ strings.Split sep b.
Proof.
  induction a as [|c a IH].
  - rewrite str_app_nil_l. cbn. by rewrite Ascii.eqb_refl.
  - rewrite str_app_cons. cbn. rewrite IH.
    destruct (Ascii.eqb c sep); [done|].
    pose proof (Split_sep_nonempty sep a). by destruct (strings.Split sep a).
Qed.

Lemma Split_sep_id (sep : ascii) (s : string) :
  no_byte sep s → strings.Split sep s = [s].
Proof.
  unfold no_byte. induction s as [|c s IH]; cbn; [done|].
  intros [Hc Hs]%andb_true_iff. apply negb_true_iff in Hc. by rewrite Hc, (IH Hs).
Qed.

Lemma Join_Split (sep : ascii) (s : string) :
  strings.Join (strings.Split sep s) (String sep "") = s.
Proof.
  unfold strings.Join. induction s as [|c s IH]; [done|]. cbn.
  pose proof (Split_sep_nonempty sep s) as Hne.
  destruct (Ascii.eqb c sep) eqn:Hc.
  - apply Ascii.eqb_eq in Hc as ->.
    destruct (strings.Split sep s) as [|x xs]; [done|].
    change (String.concat (String sep "") ("" :: x :: xs))
      with ("" +:+ String sep "" +:+ String.concat (String sep "") (x :: xs)).
    by rewrite IH.
  - destruct (strings.Split sep s) as [|x xs]; [done|].
    destruct xs as [|y xs].
    + cbn in *. by rewrite IH.
    + change (String.concat (String sep "") (String c x :: y :: xs))
        with (String c (x +:+ String sep "" +:+ String.concat (String sep "") (y :: xs))).
      change (String.concat (String sep "") (x :: y :: xs))
        with (x +:+ String sep "" +:+ String.concat (String sep "") (y :: xs)) in IH.
      by rewrite IH.
Qed.

(** ** The texts that [ParseVersion] accepts *)

(** *** Numerals *)

Lemma numeral_acc_string_of_uint (u : Decimal.uint) (p : positive) :
  numeral_acc (Npos p) (NilEmpty.string_of_uint u) = Npos (Pos.of_uint_acc u p).
Proof.
  revert p. induction u; intros p; cbn [NilEmpty.string_of_uint numeral_acc Pos.of_uint_acc];
    [done|..];
    match goal with
    | |- numeral_acc ?a _ = Npos (Pos.of_uint_acc _ ?q) =>
        replace a with (Npos q) by (vm_compute N_of_ascii; lia)
    end; apply IHu.
Qed.

Lemma numeral_value_string_of_uint (u : Decimal.uint) :
  numeral_value (NilEmpty.string_of_uint u) = N.of_uint u.
Proof.
  unfold numeral_value, N.of_uint.
  induction u; cbn [NilEmpty.string_of_uint numeral_acc Pos.of_uint]; [done|..];
    try (change (10 * 0 + (N_of_ascii "0" - 48)) with 0; exact IHu);
    match goal with
    | |- numeral_acc ?a _ = Npos (Pos.of_uint_acc _ ?q) =>
        change a with (Npos q)
    end; apply numeral_acc_string_of_uint.
Qed.

Lemma numeral_uint (d : string) :
  strings.all semver2.is_digit d = true → ∃ u, NilEmpty.uint_of_string d = Some u.
Proof.
  induction d as [|c d IH]; [by eexists|]. cbn.
  intros [Hc Hd]%andb_true_iff. destruct (IH Hd) as [u ->].
  destruct c as [[] [] [] [] [] [] [] []]; try done; by eexists.
Qed.

(** The decimal rendering of a number is a numeral that writes it. *)
Lemma fmt_d_value (n : N) :
  numeral (semver2.fmt_d n) ∧ numeral_value (semver2.fmt_d n) = n.
Proof.
  split; [split|].
  - destruct (fmt_d_head n) as (c & r & -> & _). done.
  - apply fmt_d_digits.
  - unfold semver2.fmt_d.
    by rewrite numeral_value_string_of_uint, DecimalN.Unsigned.of_to.
Qed.

(** [ParseInt] reads exactly the numerals below [2^63], as their
    value. *)
Lemma ParseInt_numeral (d : string) (n : N) :
  semver2.ParseInt d = Some n ↔ numeral d ∧ numeral_value d = n ∧ n < 2 ^ 63.
Proof.
  unfold semver2.ParseInt, numeral. split.
  - case_bool_decide as Hne; [done|].
    destruct (NilEmpty.uint_of_string d) as [u|] eqn:Hu; [|done].
    apply NilEmpty.sus in Hu. subst d.
    destruct (N.ltb_spec (N.of_uint u) (2 ^ 63)); [|done]. intros [= <-].
    split; [split; [done|apply string_of_uint_digits]|].
    split; [apply numeral_value_string_of_uint|done].
  - intros ([Hne Hd] & Hv & Hn). rewrite bool_decide_eq_false_2 by done.
    destruct (numeral_uint d Hd) as [u Hu]. rewrite Hu.
    apply NilEmpty.sus in Hu. subst d.
    rewrite numeral_value_string_of_uint in Hv. rewrite Hv.
    by rewrite (proj2 (N.ltb_lt _ _) Hn).
Qed.

(** *** Fields *)

Lemma Split_sep_concat (sep : ascii) (l : list string) :
  Forall (no_byte sep) l → l ≠ [] →
  strings.Split sep (String.concat (String sep "") l) = l.
Proof.
  induction 1 as [|x l Hx Hl IH]; [done|]. intros _.
  destruct l as [|y l].
  - cbn. by apply Split_sep_id.
  - change (String.concat (String sep "") (x :: y :: l))
      with (x +:+ String sep (String.concat (String sep "") (y :: l))).
    rewrite Split_sep_app, IH by done. by rewrite Split_sep_id.
Qed.

Lemma identifier_no_dot (x : string) : identifier x → no_byte "." x.
Proof.
  intros [_ Hx]. unfold no_byte. eapply all_impl; [|done].
  intros c Hc. destruct c as [[] [] [] [] [] [] [] []]; done.
Qed.

Lemma identifiers_chars (l : list string) :
  Forall identifier l →
  strings.all semver2.is_ident_or_dot (String.concat "." l) = true.
Proof.
  assert (∀ x, identifier x → strings.all semver2.is_ident_or_dot x = true) as Hone.
  { intros x [_ Hx]. eapply all_impl; [|done].
    intros c Hc. unfold semver2.is_ident_or_dot. by rewrite Hc. }
  induction 1 as [|x l Hx Hl IH]; [done|].
  destruct l as [|y l]; [by apply Hone|].
  change (String.concat "." (x :: y :: l))
    with (x +:+ String "." (String.concat "." (y :: l))).
  rewrite all_app, (Hone x Hx). cbn [strings.all]. by rewrite IH.
Qed.

(** The fields that the parser takes are the dotted identifier lists. *)
Lemma tag_ok_field (ids : string) : tag_ok ids ↔ field_ok ids.
Proof.
  unfold tag_ok, field_ok, semver2.dotted_idents. split.
  - intros [->|[_ Hd]]; [by left|right].
    exists (strings.Split "." ids). split; [apply Split_sep_nonempty|].
    split; [|symmetry; apply (Join_Split "." ids)].
    apply Forall_forall. intros x Hx.
    rewrite forallb_forall in Hd. specialize (Hd x).
    rewrite <-list_elem_of_In in Hd. apply Hd in Hx.
    apply andb_true_iff in Hx as [Hne Hall]. split; [|done].
    apply negb_true_iff in Hne. by apply bool_decide_eq_false in Hne.
  - intros [->|(l & Hne & Hl & ->)]; [by left|right].
    split; [by apply identifiers_chars|].
    rewrite (Split_sep_concat "." l); [|by eapply Forall_impl; [|apply identifier_no_dot]|done].
    apply forallb_forall. intros x Hx. rewrite <-list_elem_of_In in Hx.
    rewrite Forall_forall in Hl. destruct (Hl x Hx) as [Hxne Hall].
    by rewrite Hall, bool_decide_eq_false_2.
Qed.

(** *** The shape of a version text *)

Lemma match_number_spec (s m r : string) :
  semver2.match_number s = Some (m, r) →
  s = m +:+ r ∧ numeral m ∧ head_is semver2.is_digit r.
Proof.
  unfold semver2.match_number.
  destruct (strings.span semver2.is_digit s) as [ds rest] eqn:Hsp.
  case_bool_decide as Hne; [done|]. intros [= <- <-].
  apply span_spec in Hsp as (-> & Hall & Hhead). done.
Qed.

Lemma match_number_numeral (d rest : string) :
  numeral d → head_is semver2.is_digit rest →
  semver2.match_number (d +:+ rest) = Some (d, rest).
Proof.
  intros [Hne Hd] Hrest. unfold semver2.match_number.
  rewrite span_app by done. by rewrite bool_decide_eq_false_2.
Qed.

Lemma match_dot_number_no_dot (s : string) :
  head_is (Ascii.eqb ".") s → semver2.match_dot_number s = ("", s).
Proof.
  destruct s as [|c s]; [done|]. cbn. intros Hc.
  destruct c as [[] [] [] [] [] [] [] []]; done.
Qed.

Lemma match_dot_number_spec (s m r : string) :
  semver2.match_dot_number s = (m, r) →
  s = m +:+ r
  ∧ ((m = "" ∧ semver2.match_dot_number r = ("", r))
     ∨ ∃ d, m = String "." d ∧ numeral d ∧ head_is semver2.is_digit r).
Proof.
  intros H.
  assert (semver2.match_dot_number s = ("", s)
          ∨ ∃ s', s = String "." s'
                  ∧ semver2.match_dot_number s
                    = match semver2.match_number s' with
                      | Some (ds, rest) => (String "." ds, rest)
                      | None => ("", s)
                      end) as [Hno|(s' & -> & Heq)].
  { destruct s as [|c s']; [by left|].
    destruct (Ascii.eqb_spec "." c) as [<-|Hc]; [right; by eexists|left].
    apply match_dot_number_no_dot. unfold head_is. by apply Ascii.eqb_neq. }
  - rewrite Hno in H. injection H as <- <-. split; [done|]. by left.
  - rewrite Heq in H.
    destruct (semver2.match_number s') as [[ds rest]|] eqn:Hm.
    + injection H as <- <-. apply match_number_spec in Hm as (-> & Hn & Hh).
      split; [done|]. right. by exists ds.
    + injection H as <- <-. split; [done|]. by left.
Qed.

Lemma match_dot_number_numeral (d rest : string) :
  numeral d → head_is semver2.is_digit rest →
  semver2.match_dot_number (String "." d +:+ rest) = (String "." d, rest).
Proof.
  intros Hd Hrest. rewrite str_app_cons.
  change (semver2.match_dot_number (String "." (d +:+ rest)))
    with (match semver2.match_number (d +:+ rest) with
          | Some (ds, r) => (String "." ds, r)
          | None => ("", String "." (d +:+ rest))
          end).
  by rewrite match_number_numeral.
Qed.

Lemma match_tagged_spec (c : ascii) (s ids rest : string) :
  semver2.match_tagged c s = Some (ids, rest) →
  s = tag_text c ids +:+ rest ∧ tag_ok ids.
Proof.
  intros H. split; [|by eapply match_tagged_ok].
  unfold semver2.match_tagged in H. destruct s as [|c' s']; [by injection H as <- <-|].
  destruct (Ascii.eqb_spec c' c) as [->|Hc]; [|by injection H as <- <-].
  destruct (strings.span semver2.is_ident_or_dot s') as [a b] eqn:Hsp.
  destruct (semver2.dotted_idents a) eqn:Hd; [|done]. injection H as <- <-.
  apply span_spec in Hsp as (-> & _ & _).
  unfold tag_text. rewrite bool_decide_eq_false_2; [done|]. by intros ->.
Qed.

Lemma TrimPrefix_v (s : string) :
  ∃ lead, (lead = "" ∨ lead = "v") ∧ s = lead +:+ strings.TrimPrefix s "v".
Proof.
  unfold strings.TrimPrefix. destruct s as [|c s']; [exists ""; auto|]. cbn.
  destruct (Ascii.eqb_spec c "v") as [->|Hc]; [exists "v"|exists ""]; auto.
Qed.

Lemma numeral_head (d : string) :
  numeral d → ∃ c r, d = String c r ∧ semver2.is_digit c = true.
Proof.
  intros [Hne Hd]. destruct d as [|c r]; [done|]. cbn in Hd.
  apply andb_true_iff in Hd as [Hc _]. eauto.
Qed.


Lemma tail_head (pre meta : string) (f : ascii → bool) :
  f "-"%char = false → f "+"%char = false →
  head_is f (tag_text "-" pre +:+ tag_text "+" meta).
Proof.
  intros H1 H2. unfold head_is. apply tag_text_head; [done|].
  rewrite <-(str_app_nil_r (tag_text _ _)). by apply tag_text_head.
Qed.

Lemma dotted_head (part rest : string) (n : N) (f : ascii → bool) :
  dotted_number part n → f "."%char = false → head_is f rest →
  head_is f (part +:+ rest).
Proof.
  intros [[-> _]|(d & -> & _)] Hf Hrest; [done|]. by rewrite str_app_cons.
Qed.

(** What [NewVersion] accepts is a version text, and it reads the
    numbers and the fields that the text has. *)
Lemma NewVersion_text (s : string) (sv : semver2.Version) :
  semver2.NewVersion s = inr sv →
  version_text s (semver2.major sv) (semver2.minor sv) (semver2.patch sv)
    (semver2.pre sv) (semver2.metadata sv).
Proof.
  unfold semver2.NewVersion, semver2.FindStringSubmatch.
  destruct (TrimPrefix_v s) as (lead & Hlead & Hs).
  destruct (semver2.match_number _) as [[m1 r1]|] eqn:H1; [cbn|done].
  destruct (semver2.match_dot_number r1) as [m2 r2] eqn:H2.
  destruct (semver2.match_dot_number r2) as [m3 r3] eqn:H3.
  destruct (semver2.match_tagged "-" r3) as [[m5 r4]|] eqn:H5; [cbn|done].
  destruct (semver2.match_tagged "+" r4) as [[m8 r5]|] eqn:H8; [cbn|done].
  case_bool_decide as Hend; [subst r5|done].
  destruct (semver2.ParseInt m1) as [ma|] eqn:Hma; [|done].
  destruct (semver2.parse_segment m2) as [|mi] eqn:Hmi; [done|].
  destruct (semver2.parse_segment m3) as [|pa] eqn:Hpa; [done|].
  intros [= <-]. cbn.
  apply match_number_spec in H1 as (Hs1 & Hn1 & _).
  apply match_tagged_spec in H5 as (-> & Hok5).
  apply match_tagged_spec in H8 as (-> & Hok8). rewrite str_app_nil_r in *.
  assert (∀ m r r' n, semver2.match_dot_number r = (m, r') →
            semver2.parse_segment m = inr n →
            r = m +:+ r' ∧ dotted_number m n
            ∧ (m = "" → semver2.match_dot_number r' = ("", r'))) as Hseg.
  { intros m r r' n Hm Hp. apply match_dot_number_spec in Hm as (-> & Hm).
    split; [done|]. unfold semver2.parse_segment in Hp.
    destruct Hm as [[-> Hagain]|(d & -> & Hd & _)].
    - injection Hp as <-. split; [by left|done].
    - rewrite bool_decide_eq_false_2, TrimPrefix_dot in Hp by done.
      destruct (semver2.ParseInt d) as [k|] eqn:Hk; [|done]. injection Hp as <-.
      apply ParseInt_numeral in Hk as (_ & Hv & _).
      split; [right; by exists d|done]. }
  destruct (Hseg _ _ _ _ H2 Hmi) as (-> & Hd2 & Hagain).
  destruct (Hseg _ _ _ _ H3 Hpa) as (Hr2 & Hd3 & _).
  exists lead, m1, m2, m3.
  split; [by rewrite Hs, Hs1, Hr2|].
  split; [done|]. split; [done|].
  split; [by apply ParseInt_numeral in Hma as (_ & ? & _)|].
  split; [done|]. split; [done|].
  split; [|split; by apply tag_ok_field].
  intros ->. rewrite str_app_nil_l in *. specialize (Hagain eq_refl).
  rewrite H3 in Hagain. by injection Hagain as ->.
Qed.

Lemma text_NewVersion (s : string) (ma mi pa : N) (pre meta : string) :
  version_text s ma mi pa pre meta →
  ma < 2 ^ 63 → mi < 2 ^ 63 → pa < 2 ^ 63 →
  semver2.NewVersion s = inr (semver2.mkVersion ma mi pa pre meta s).
Proof.
  intros (lead & d1 & p2 & p3 & Hs & Hlead & Hd1 & Hv1 & Hp2 & Hp3 & Hgap & Hpre & Hmeta)
    Hma Hmi Hpa.
  apply tag_ok_field in Hpre, Hmeta.
  set (tail := tag_text "-" pre +:+ tag_text "+" meta) in *.
  assert (strings.TrimPrefix s "v" = d1 +:+ p2 +:+ p3 +:+ tail) as Htrim.
  { rewrite Hs. destruct Hlead as [-> | ->]; [|done]. rewrite str_app_nil_l.
    destruct (numeral_head d1 Hd1) as (c & r & -> & Hc).
    rewrite str_app_cons. unfold strings.TrimPrefix. cbn.
    by rewrite (is_digit_not_v c Hc). }
  assert (∀ f, f "-"%char = false → f "+"%char = false → head_is f tail) as Htail
    by (intros f ??; by apply tail_head).
  assert (∀ part n rest, dotted_number part n → n < 2 ^ 63 →
            head_is semver2.is_digit rest →
            (part = "" → head_is (Ascii.eqb ".") rest) →
            semver2.match_dot_number (part +:+ rest) = (part, rest)
            ∧ semver2.parse_segment part = inr n) as Hseg.
  { intros part n rest [[-> ->]|(d & -> & Hd & Hv)] Hn Hrest Hnodot.
    - rewrite str_app_nil_l. split; [|done]. by apply match_dot_number_no_dot, Hnodot.
    - split; [by apply match_dot_number_numeral|].
      unfold semver2.parse_segment.
      rewrite bool_decide_eq_false_2, TrimPrefix_dot by done.
      by rewrite (proj2 (ParseInt_numeral d n)). }
  destruct (Hseg p3 pa tail Hp3 Hpa) as [Hm3 Hs3]; [by apply Htail|by intros; apply Htail|].
  destruct (Hseg p2 mi (p3 +:+ tail) Hp2 Hmi) as [Hm2 Hs2].
  { by eapply dotted_head; [done|done|apply Htail]. }
  { intros Hnil. rewrite (Hgap Hnil), str_app_nil_l. by apply Htail. }
  unfold semver2.NewVersion, semver2.FindStringSubmatch.
  rewrite Htrim, match_number_numeral; [cbn|done|].
  2:{ eapply dotted_head; [done|done|]. by eapply dotted_head; [done|done|apply Htail]. }
  rewrite Hm2, Hm3. subst tail.
  rewrite match_tagged_print; [cbn|done|].
  2:{ unfold tag_text. case_bool_decide; done. }
  rewrite <-(str_app_nil_r (tag_text "+" _)), match_tagged_print by done. cbn.
  rewrite bool_decide_eq_true_2 by done.
  rewrite (proj2 (ParseInt_numeral d1 ma)) by done.
  by rewrite Hs2, Hs3.
Qed.

(** C10 (amended): [ParseVersion] accepts exactly the version texts
    with numbers below [2^63], and the [Version] it returns is the
    normal form [major.minor.patch[-pre][+metadata]] of the text: the
    leading [v] dropped, missing numbers written as [0], leading zeros
    gone, the pre-release and the metadata as they are.  That
    [Version] parses to itself and has no leading [v]. *)
Theorem ParseVersion_canonical (s : string) (v : Version) :
  (ParseVersion s = inr v
   ↔ ∃ ma mi pa pre meta,
       version_text s ma mi pa pre meta
       ∧ ma < 2 ^ 63 ∧ mi < 2 ^ 63 ∧ pa < 2 ^ 63
       ∧ v = normal_form ma mi pa pre meta)
  ∧ (ParseVersion s = inr v → ParseVersion v = inr v ∧ Number v = v).
Proof.
  split; [split|].
  - unfold ParseVersion.
    destruct (semver2.NewVersion s) as [|sv] eqn:Hs; [done|]. intros [= <-].
    destruct (NewVersion_ok s sv Hs) as (Hma & Hmi & Hpa & _).
    exists (semver2.major sv), (semver2.minor sv), (semver2.patch sv),
      (semver2.pre sv), (semver2.metadata sv).
    split; [by apply NewVersion_text|]. by repeat split.
  - intros (ma & mi & pa & pre & meta & Htext & Hma & Hmi & Hpa & ->).
    unfold ParseVersion. rewrite (text_NewVersion s ma mi pa pre meta) by done.
    by rewrite String_eq.
  - intros Hp. split; [|by eapply ParseVersion_bare].
    unfold ParseVersion in *.
    destruct (semver2.NewVersion s) as [|sv] eqn:Hs; [done|].
    injection Hp as <-. apply NewVersion_ok in Hs.
    rewrite (NewVersion_String sv Hs). f_equal.
Qed.

Lemma ParseVersion_canonical_witness :
  ParseVersion "v01.17" = inr "1.17.0"
  ∧ ParseVersion "1.17.0" = inr "1.17.0" ∧ Number "1.17.0" = "1.17.0".
Proof.
  assert (ParseVersion "v01.17" = inr "1.17.0") as Hp.
  { apply (proj2 (proj1 (ParseVersion_canonical "v01.17" "1.17.0"))).
    exists 1, 17, 0, "", "". split; [|by vm_compute].
    exists "v", "01", ".17", "". split; [reflexivity|]. split; [by right|].
    split; [done|]. split; [reflexivity|].
    split; [right; by exists "17"|]. split; [by left|]. split; [done|].
    split; by left. }
  split; [exact Hp|].
  exact (proj2 (ParseVersion_canonical "v01.17" "1.17.0") Hp).
Defined.

(** ** The renamer *)

(** [unarchiveRenamer] drops the first segment and its slash and leaves
    the rest of the name as it is; of a name without a slash nothing
    is left. *)
Theorem unarchiveRenamer_drops_first_segment (wrapper rest : string) :
  no_slash wrapper →
  unarchiveRenamer (wrapper +:+ "/" +:+ rest) = rest
  ∧ unarchiveRenamer wrapper = "".
Proof.
  intros Hw. unfold unarchiveRenamer, filepath.Separator. split.
  - change (wrapper +:+ "/" +:+ rest) with (wrapper +:+ String "/" rest).
    rewrite Split_sep_app, (Split_sep_id "/" wrapper Hw). cbn [app drop].
    apply Join_Split.
  - by rewrite (Split_sep_id "/" wrapper Hw).
Qed.

Lemma unarchiveRenamer_drops_first_segment_witness :
  unarchiveRenamer "go/bin/go" = "bin/go" ∧ unarchiveRenamer "go" = "".
Proof.
  apply (unarchiveRenamer_drops_first_segment "go" "bin/go"). reflexivity.
Defined.

(** ** Output *)




Lemma Sprintf_parsed fmt_verbs (link : string) (v : Version) :
  ParseVersion link = inr v → Sprintf fmt_verbs v = v.
Proof.
  intros Hp. destruct (ParseVersion_chars link v Hp) as [Hall _].
  unfold Sprintf. rewrite <-(str_app_nil_r v) at 1.
  rewrite span_app; [|by eapply all_impl; [apply version_char_not_percent|]|done].
  rewrite bool_decide_eq_true_2 by done. by rewrite str_app_nil_r.
Qed.

(** [Current] writes the version that [current] reports, as it is and
    without a newline: a parsed version holds no [%], so nothing in it
    is taken for a verb, whatever [fmt] makes of verbs. *)
Theorem Current_writes_version fmt_verbs (e : executor) (s : os.state)
    (out : string) (v : Version) :
  current e s = inr v →
  Current fmt_verbs e s out = (out +:+ v, None).
Proof.
  intros Hcur. unfold Current. rewrite Hcur.
  assert (∃ link, ParseVersion link = inr v) as [link Hp].
  { unfold current in Hcur. destruct (Fs e); [|done].
    destruct (os.Readlink s _); [done|]. eauto. }
  unfold Fprintf, Version_String. by rewrite (Sprintf_parsed fmt_verbs link).
Qed.

Lemma Current_writes_version_witness :
  current (defaultExecutor "/sdk/go") (os.mkState sdk_tree_current_link []) = inr "1.17.1"
  ∧ Current (λ _, "%!(NOVERB)") (defaultExecutor "/sdk/go")
      (os.mkState sdk_tree_current_link []) "" = ("1.17.1", None).
Proof.
  split; [vm_compute; reflexivity|].
  apply (Current_writes_version (λ _, "%!(NOVERB)") (defaultExecutor "/sdk/go")
           (os.mkState sdk_tree_current_link []) "" "1.17.1").
  vm_compute. reflexivity.
Defined.

(** ** The commands *)

Lemma validateArgs_ok (subcmd : string) (args : list string) (expected : nat) :
  length args = expected → validateArgsForSubcommand subcmd args expected = None.
Proof.
  intros H. unfold validateArgsForSubcommand. by rewrite bool_decide_eq_false_2 by lia.
Qed.

(** A command called with the wrong number of arguments returns the
    error of [validateArgsForSubcommand] and does nothing else: the
    filesystem is as it was, nothing is downloaded and nothing is
    written. *)
Theorem commands_wrong_arity gzip_optional_fields inflate_tar host net fmt_verbs
    (installPath : string) (args1 args0 : list string) (s : os.state) (out : string) :
  length args1 ≠ 1%nat → length args0 ≠ 0%nat →
  (∃ err, validateArgsForSubcommand "install" args1 1 = Some err
          ∧ installCmd_RunE gzip_optional_fields inflate_tar host net installPath args1 s
            = (s, Return (Some err)))
  ∧ (∃ err, validateArgsForSubcommand "use" args1 1 = Some err
            ∧ useCmd_RunE installPath args1 s = (s, Return (Some err)))
  ∧ (∃ err, validateArgsForSubcommand "list" args0 0 = Some err
            ∧ listCmd_RunE installPath args0 s out = (out, Some err))
  ∧ (∃ err, validateArgsForSubcommand "current" args0 0 = Some err
            ∧ currentCmd_RunE fmt_verbs installPath args0 s out = (out, Some err)).
Proof.
  intros H1 H0.
  unfold installCmd_RunE, useCmd_RunE, listCmd_RunE, currentCmd_RunE,
    validateArgsForSubcommand.
  rewrite !(bool_decide_eq_true_2 (length args1 ≠ 1%nat)) by done.
  rewrite !(bool_decide_eq_true_2 (length args0 ≠ 0%nat)) by done.
  repeat split; by eexists.
Qed.

Lemma commands_wrong_arity_witness :
  (∃ err, validateArgsForSubcommand "install" [] 1 = Some err
          ∧ installCmd_RunE (λ _, None) (λ _, tar_EOF) linux_amd64
              (λ _, Response 200 gzip_magic None) "/sdk/go" [] sdk_state
            = (sdk_state, Return (Some err)))
  ∧ (∃ err, validateArgsForSubcommand "use" [] 1 = Some err
            ∧ useCmd_RunE "/sdk/go" [] sdk_state = (sdk_state, Return (Some err)))
  ∧ (∃ err, validateArgsForSubcommand "list" ["x"] 0 = Some err
            ∧ listCmd_RunE "/sdk/go" ["x"] sdk_state "" = ("", Some err))
  ∧ (∃ err, validateArgsForSubcommand "current" ["x"] 0 = Some err
            ∧ currentCmd_RunE (λ _, "") "/sdk/go" ["x"] sdk_state "" = ("", Some err)).
Proof.
  apply (commands_wrong_arity (λ _, None) (λ _, tar_EOF) linux_amd64
           (λ _, Response 200 gzip_magic None) (λ _, "") "/sdk/go" [] ["x"]
           sdk_state ""); cbn; lia.
Defined.

(** [install] and [use] with an argument that is not a version return
    the error of the parser; the filesystem is as it was and nothing is
    downloaded. *)
Theorem commands_invalid_version gzip_optional_fields inflate_tar host net
    (installPath arg : string) (s : os.state) (err : error) :
  ParseVersion arg = inl err →
  installCmd_RunE gzip_optional_fields inflate_tar host net installPath [arg] s
  = (s, Return (Some err))
  ∧ useCmd_RunE installPath [arg] s = (s, Return (Some err)).
Proof.
  intros Hp. unfold installCmd_RunE, useCmd_RunE.
  rewrite !validateArgs_ok by done. by rewrite Hp.
Qed.

Lemma commands_invalid_version_witness :
  ParseVersion "latest" = inl ErrInvalidSemVer
  ∧ installCmd_RunE (λ _, None) (λ _, tar_EOF) linux_amd64
      (λ _, Response 200 gzip_magic None) "/sdk/go" ["latest"] sdk_state
    = (sdk_state, Return (Some ErrInvalidSemVer))
  ∧ useCmd_RunE "/sdk/go" ["latest"] sdk_state
    = (sdk_state, Return (Some ErrInvalidSemVer)).
Proof.
  split; [vm_compute; reflexivity|].
  apply (commands_invalid_version (λ _, None) (λ _, tar_EOF) linux_amd64
           (λ _, Response 200 gzip_magic None) "/sdk/go" "latest" sdk_state).
  vm_compute. reflexivity.
Defined.

(** One leading [v] is ignored: the argument with it and the argument
    without it parse alike, and [install] and [use] do the same for
    both. *)
Theorem commands_leading_v gzip_optional_fields inflate_tar host net
    (installPath arg : string) (s : os.state) :
  strings.HasPrefix arg "v" = false →
  ParseVersion (String "v" arg) = ParseVersion arg
  ∧ installCmd_RunE gzip_optional_fields inflate_tar host net installPath
      [String "v" arg] s
    = installCmd_RunE gzip_optional_fields inflate_tar host net installPath [arg] s
  ∧ useCmd_RunE installPath [String "v" arg] s = useCmd_RunE installPath [arg] s.
Proof.
  intros Hs.
  assert (ParseVersion (String "v" arg) = ParseVersion arg) as Hpv.
  { unfold ParseVersion, semver2.NewVersion, semver2.FindStringSubmatch.
    change (strings.TrimPrefix (String "v" arg) "v") with arg.
    rewrite (TrimPrefix_no_v arg Hs).
    destruct (semver2.match_number arg) as [[m1 r1]|]; [cbn|done].
    destruct (semver2.match_dot_number r1) as [m2 r2].
    destruct (semver2.match_dot_number r2) as [m3 r3].
    destruct (semver2.match_tagged "-" r3) as [[m5 r4]|]; [cbn|done].
    destruct (semver2.match_tagged "+" r4) as [[m8 r5]|]; [cbn|done].
    case_bool_decide; [|done].
    destruct (semver2.ParseInt m1); [|done].
    destruct (semver2.parse_segment m2); [done|].
    by destruct (semver2.parse_segment m3). }
  split; [done|]. unfold installCmd_RunE, useCmd_RunE.
  rewrite !validateArgs_ok by done. by rewrite Hpv.
Qed.

Lemma commands_leading_v_witness :
  strings.HasPrefix "1.17.1" "v" = false
  ∧ ParseVersion "v1.17.1" = ParseVersion "1.17.1"
  ∧ installCmd_RunE (λ _, None) (λ _, tar_EOF) linux_amd64
      (λ _, TransportError io_EOF) "/sdk/go" ["v1.17.1"] sdk_state
    = installCmd_RunE (λ _, None) (λ _, tar_EOF) linux_amd64
        (λ _, TransportError io_EOF) "/sdk/go" ["1.17.1"] sdk_state
  ∧ useCmd_RunE "/sdk/go" ["v1.17.1"] sdk_state
    = useCmd_RunE "/sdk/go" ["1.17.1"] sdk_state.
Proof.
  split; [reflexivity|].
  apply (commands_leading_v (λ _, None) (λ _, tar_EOF) linux_amd64
           (λ _, TransportError io_EOF) "/sdk/go" "1.17.1" sdk_state).
  reflexivity.
Defined.

(** ** The inventory, in full *)

(** [list] returns every real directory of the install root, and each
    of them once. *)
Theorem list_exactly_directories (e : executor) (s : os.state) (vs : list Version) :
  list_ e s = (vs, None) →
  NoDup vs
  ∧ ∃ loc, os.resolve s true (InstallPath e) = inr loc
      ∧ ∀ name, name ∈ vs ↔ ∃ perm, os.tree s !! (loc ++ [name]) = Some (os.Dir perm).
Proof.
  intros (loc & Hloc & _ & Hnd & Hmem)%list_spec. split; [done|]. by exists loc.
Qed.

Lemma list_exactly_directories_witness :
  list_ (defaultExecutor "/sdk/go") (os.mkState sdk_tree_two []) = (["1.16.8"; "1.17.1"], None)
  ∧ NoDup ["1.16.8"; "1.17.1"]
  ∧ ∃ loc, os.resolve (os.mkState sdk_tree_two []) true "/sdk/go" = inr loc
      ∧ ∀ name, name ∈ ["1.16.8"; "1.17.1"]
                ↔ ∃ perm, sdk_tree_two !! (loc ++ [name]) = Some (os.Dir perm).
Proof.
  split; [vm_compute; reflexivity|].
  apply (list_exactly_directories (defaultExecutor "/sdk/go")
           (os.mkState sdk_tree_two []) ["1.16.8"; "1.17.1"]).
  vm_compute. reflexivity.
Defined.


Lemma list_plain (e : executor) (root : list string) (s : os.state) :
  InstallPath e = os.mkpath true root → Forall plain_name root →
  dirs_at (os.tree s) [] root →
  ∃ vs, list_ e s = (vs, None) ∧ os.resolve s true (InstallPath e) = inr root.
Proof.
  intros HIP Hroot Hd.
  assert (os.resolve s true (InstallPath e) = inr root) as Hres
    by (rewrite HIP; by apply resolve_dirs).
  destruct (Stat_dirs s root Hroot Hd) as [perm Hstat].
  unfold os.Stat, os.stat_gen in Hstat. rewrite <-HIP, Hres in Hstat.
  unfold list_, afero.ReadDir, os.Readdir. rewrite Hres.
  destruct (os.lookup (os.tree s) root) as [[p| |]|]; try done. eauto.
Qed.

(** ** The current link: what [Use] touches *)

(** Whatever [Use] does, it does to the entry [current] of the install
    root: that entry is as before, gone, or a link. *)
Lemma Use_effect (e : executor) (root : list string) (v : Version) (s : os.state) :
  InstallPath e = os.mkpath true root → Forall plain_name root →
  dirs_at (os.tree s) [] root →
  ∃ t', (Use e v s).1 = os.with_tree s t'
    ∧ (∀ k, k ≠ root ++ ["current"] → t' !! k = os.tree s !! k)
    ∧ (t' !! (root ++ ["current"]) = os.tree s !! (root ++ ["current"])
       ∨ t' !! (root ++ ["current"]) = None
       ∨ ∃ tg, t' !! (root ++ ["current"]) = Some (os.Symlink tg)).
Proof.
  intros HIP Hroot Hd.
  unfold Use. cbv zeta. rewrite HIP, (Join_mkpath_name root "current") by done.
  destruct (Fs e); [|exists (os.tree s); by rewrite with_tree_id; auto].
  destruct (afero.DirExists s _) as [[] [err|]];
    try (exists (os.tree s); by rewrite with_tree_id; auto).
  assert (∃ t1, (os.Remove s (os.mkpath true (root ++ ["current"]))).1 = os.with_tree s t1
                ∧ (t1 = os.tree s ∨ t1 = delete (root ++ ["current"]) (os.tree s))) as (t1 & Hrm & Ht1).
  { unfold os.Remove. rewrite resolve_plain by (done || by left).
    destruct (os.tree s !! (root ++ ["current"])) as [[perm|perm data|tg]|]; cbn.
    - destruct (os.children (os.tree s) (root ++ ["current"])); cbn; [by eexists; eauto|].
      exists (os.tree s). by rewrite with_tree_id; auto.
    - by eexists; eauto.
    - by eexists; eauto.
    - exists (os.tree s). by rewrite with_tree_id; auto. }
  destruct (os.Remove s (os.mkpath true (root ++ ["current"]))) as [s1 r1]. cbn in Hrm. subst s1.
  assert (dirs_at t1 [] root) as Hd1.
  { destruct Ht1 as [-> | ->]; [done|]. apply dirs_at_delete; [apply snoc_not_prefix|done]. }
  unfold os.Symlink_. rewrite resolve_plain by (done || by left).
  rewrite lookup_nonroot. cbn [os.tree os.with_tree].
  destruct (t1 !! (root ++ ["current"])) as [n|] eqn:Hn; cbn.
  - exists t1. split; [done|]. destruct Ht1 as [-> | ->].
    + auto.
    + by rewrite lookup_delete_eq in Hn.
  - eexists. split; [done|]. split.
    + intros k Hk. rewrite lookup_insert_ne by done.
      destruct Ht1 as [-> | ->]; [done|]. by rewrite lookup_delete_ne.
    + right. right. rewrite lookup_insert_eq. by eexists.
Qed.

(** [Use] changes nothing but the entry [current] of the install root,
    whatever the version, whatever the outcome. *)
Theorem Use_changes_only_current (e : executor) (root : list string)
    (v : Version) (s : os.state) (k : list string) :
  InstallPath e = os.mkpath true root → Forall plain_name root →
  dirs_at (os.tree s) [] root →
  k ≠ root ++ ["current"] →
  os.tree (Use e v s).1 !! k = os.tree s !! k ∧ os.cwd (Use e v s).1 = os.cwd s.
Proof.
  intros HIP Hroot Hd Hk.
  destruct (Use_effect e root v s HIP Hroot Hd) as (t' & -> & Hother & _).
  split; [by apply Hother|done].
Qed.

Lemma Use_changes_only_current_witness :
  os.tree (Use (defaultExecutor "/sdk/go") "1.17.1" (os.mkState sdk_tree_two [])).1
    !! ["sdk"; "go"; "1.16.8"]
  = sdk_tree_two !! ["sdk"; "go"; "1.16.8"]
  ∧ os.cwd (Use (defaultExecutor "/sdk/go") "1.17.1" (os.mkState sdk_tree_two [])).1 = [].
Proof.
  apply (Use_changes_only_current (defaultExecutor "/sdk/go") ["sdk"; "go"] "1.17.1"
           (os.mkState sdk_tree_two []) ["sdk"; "go"; "1.16.8"]).
  - reflexivity.
  - refine (bool_decide_unpack _ _); vm_compute; exact I.
  - apply dir_path_dirs_at. vm_compute. reflexivity.
  - discriminate.
Defined.








(** [Use] leaves the inventory as it is, unless [current] was a real
    directory: what [list] returns before it returns after. *)
Theorem list_after_Use (e : executor) (root : list string) (v : Version)
    (s : os.state) :
  InstallPath e = os.mkpath true root → Forall plain_name root →
  dirs_at (os.tree s) [] root →
  (∀ perm, os.tree s !! (root ++ ["current"]) ≠ Some (os.Dir perm)) →
  list_ e (Use e v s).1 = list_ e s.
Proof.
  intros HIP Hroot Hd Hcur.
  destruct (Use_effect e root v s HIP Hroot Hd) as (t' & -> & Hother & Hat).
  assert (dirs_at t' [] root) as Hd'.
  { intros pre Hpre Hne. cbn. rewrite Hother; [by apply Hd|].
    intros ->. by apply snoc_not_prefix in Hpre. }
  destruct (list_plain e root s HIP Hroot Hd) as (vs & Hl & Hres).
  destruct (list_plain e root (os.with_tree s t') HIP Hroot Hd') as (vs' & Hl' & Hres').
  rewrite Hl, Hl'. f_equal.
  destruct (list_spec e s vs Hl) as (loc & Hloc & Hs & Hnd & Hmem).
  destruct (list_spec e _ vs' Hl') as (loc' & Hloc' & Hs' & Hnd' & Hmem').
  rewrite Hres in Hloc. injection Hloc as <-.
  rewrite Hres' in Hloc'. injection Hloc' as <-.
  apply (StronglySorted_unique String.le); [done|done|].
  apply NoDup_Permutation; [done|done|].
  intros name. rewrite Hmem, Hmem'. cbn.
  destruct (decide (name = "current")) as [->|Hn].
  - split; intros [perm Hp].
    + destruct Hat as [Heq|[Heq|[tg Heq]]]; rewrite Heq in Hp; try done.
      by destruct (Hcur perm).
    + by destruct (Hcur perm).
  - rewrite Hother; [done|]. intros [=]%app_inv_head. done.
Qed.

Lemma list_after_Use_witness :
  list_ (defaultExecutor "/sdk/go")
    (Use (defaultExecutor "/sdk/go") "1.17.1" (os.mkState sdk_tree_two [])).1
  = list_ (defaultExecutor "/sdk/go") (os.mkState sdk_tree_two []).
Proof.
  apply (list_after_Use (defaultExecutor "/sdk/go") ["sdk"; "go"] "1.17.1"
           (os.mkState sdk_tree_two [])).
  - reflexivity.
  - refine (bool_decide_unpack _ _); vm_compute; exact I.
  - apply dir_path_dirs_at. vm_compute. reflexivity.
  - intros perm. vm_compute. discriminate.
Defined.



(** ** Installing: again, in vain, and in part *)

Lemma MkdirAll_existing (s : os.state) (names : list string) (perm : N) :
  Forall plain_name names → dirs_at (os.tree s) [] names →
  os.MkdirAll s (os.mkpath true names) perm = (s, None).
Proof.
  intros Hplain Hd. unfold os.MkdirAll. rewrite elems_mkpath, mkpath_abs by done.
  destruct (Stat_dirs s names Hplain Hd) as [p Hstat].
  case_bool_decide.
  - by rewrite Hstat.
  - rewrite MkdirAll_names_unfold. cbv zeta. by rewrite rev_involutive, Hstat.
Qed.

(** Extracting the same archive over its own extraction changes
    nothing, when the process may write the files again. *)
Lemma untar_again (root : list string) (t0 : gmap (list string) os.node)
    (entries todo seen : list entry) (s : os.state) :
  Forall plain_name root → dirs_at t0 [] root →
  extracted (os.umask s) root t0 entries (os.tree s) →
  files_rewritable s entries →
  (∀ x, x ∈ seen ++ todo → x ∈ entries) →
  extractable seen todo →
  untar_loop (stream_of todo) (os.mkpath true root) (Some unarchiveRenamer) s
  = (s, Return None).
Proof.
  intros Hroot Hroot0 Hex Hrw. revert seen.
  pose proof (dirs_at_root _ _ _ _ _ Hex Hroot0) as Hd.
  induction todo as [|[h body] todo IH]; intros seen Hsub Hok; [done|].
  destruct Hok as [(Hdots & _ & Hfile) Hrest]. cbn [fst] in *.
  assert ((h, body) ∈ entries) as Hin
    by (apply Hsub; rewrite elem_of_app, elem_of_cons; auto).
  assert (untar_loop (stream_of todo) (os.mkpath true root) (Some unarchiveRenamer) s
          = (s, Return None)) as Hnext.
  { apply (IH (seen ++ [(h, body)])); [|done].
    intros x Hx. apply Hsub. by rewrite <-app_assoc in Hx. }
  cbn [stream_of untar_loop].
  destruct (entry_path root h Hroot Hdots) as [-> Hplain].
  destruct (IsDir h) eqn:Hdir.
  - rewrite MkdirAll_existing; [done|by apply Forall_app|].
    apply dirs_at_app; [done|]. intros pre Hpre Hne.
    apply (ex_dir _ _ _ _ _ Hex); [done|]. by exists h, body.
  - destruct (Hfile eq_refl) as (Hne & _ & Hparent).
    remember (rel_names h) as rel eqn:Hrel.
    destruct rel as [|f parent _] using rev_ind; [done|]. clear Hne.
    rewrite removelast_last in Hparent.
    apply Forall_app in Hplain as [Hpp Hpf]. inversion Hpf as [|?? Hf _]; subst.
    assert (dirs_at (os.tree s) [] (root ++ parent)) as Hdp.
    { apply dirs_at_app; [done|]. intros pre Hpre Hpne.
      destruct Hparent as [->|Hexi]; [by apply prefix_nil_inv in Hpre|].
      apply Exists_exists in Hexi as ([h' b'] & Hin' & Hdir' & Hpp').
      apply (ex_dir _ _ _ _ _ Hex); [done|]. exists h', b'.
      split; [apply Hsub; rewrite elem_of_app; auto|]. split; [done|]. by etrans. }
    assert (os.tree s !! ((root ++ parent) ++ [f])
            = Some (os.File (mode_less (os.umask s) (Mode h)) body)) as Hl.
    { rewrite <-app_assoc. apply (ex_file _ _ _ _ _ Hex); [by destruct parent|].
      by exists h. }
    assert (os.permits s (mode_less (os.umask s) (Mode h)) 128 = true) as Hw.
    { unfold files_rewritable in Hrw. rewrite Forall_forall in Hrw.
      by apply (Hrw (h, body)). }
    unfold os.OpenFile_create_trunc.
    rewrite (app_assoc root parent [f]).
    rewrite resolve_plain;
      [|by apply Forall_app|done|done|right; intros tg; by rewrite Hl].
    rewrite lookup_nonroot, Hl, Hw. unfold os.write. cbn [os.tree os.with_tree].
    rewrite lookup_insert_eq. cbn [app]. rewrite insert_insert_eq.
    rewrite (insert_id (os.tree s) _ (os.File (mode_less (os.umask s) (Mode h)) body)) by done.
    replace (os.with_tree (os.with_tree s _) (os.tree s)) with s
      by (by destruct s).
    done.
Qed.

(** [Install] of the same version a second time succeeds and leaves
    every file and directory as the first one made it: for an install
    root in which the process can work, a umask that leaves it its own
    directories, and an archive whose directories are open to it and
    whose files it may write again. *)
Theorem Install_twice gzip_optional_fields inflate_tar host net
    (e : executor) (version : Version) (root : list string)
    (buf : list Byte.byte) (entries : list entry) (s : os.state) :
  InstallPath e = os.mkpath true root →
  Forall plain_name root → plain_name version →
  workable s root →
  os.permits s (mode_less (os.umask s) os.ModePerm) 192 = true →
  os.tree s !! (root ++ [version]) = None →
  empty_below (root ++ [version]) (os.tree s) →
  dlArchive host net e version = (buf, None) →
  gzip_NewReader gzip_optional_fields buf = None →
  inflate_tar buf = stream_of entries →
  extractable [] entries → dirs_usable s entries → files_rewritable s entries →
  ∃ s1, Install gzip_optional_fields inflate_tar host net e version s
        = (s1, Return None)
        ∧ Install gzip_optional_fields inflate_tar host net e version s1
          = (s1, Return None).
Proof.
  intros HIP Hroot Hv Hwork Hperm Hnone Hempty Hdl Hgz Htar Hok Huse Hrw.
  destruct (Install_fresh gzip_optional_fields inflate_tar host net e version root
              buf entries s) as (t' & Hfirst & Hex); try done.
  exists (os.with_tree s t'). split; [done|].
  pose proof (workable_dirs_at s root Hwork) as Hd.
  destruct (version_dir_ready s root version Hroot Hv Hd Hempty Hperm)
    as (Hroot1 & Hd1 & _ & _).
  set (t1 := <[root ++ [version] := os.Dir (mode_less (os.umask s) os.ModePerm)]> (os.tree s))
    in *.
  unfold Install, Version_String. cbv zeta.
  rewrite Hdl, HIP, Join_mkpath_name by done.
  rewrite MkdirAll_existing;
    [|done|by apply (dirs_at_root (os.umask s) _ t1 entries)].
  unfold unTarGzip. rewrite Hgz, Htar.
  by rewrite (untar_again (root ++ [version]) t1 entries entries []).
Qed.

Lemma Install_twice_witness :
  ∃ s1, Install (λ _, None) (λ _, stream_of go_archive) linux_amd64
          (λ _, Response 200 gzip_magic None) (defaultExecutor "/sdk/go") "1.17.1"
          sdk_state = (s1, Return None)
        ∧ Install (λ _, None) (λ _, stream_of go_archive) linux_amd64
            (λ _, Response 200 gzip_magic None) (defaultExecutor "/sdk/go") "1.17.1"
            s1 = (s1, Return None).
Proof.
  apply (Install_twice (λ _, None) (λ _, stream_of go_archive) linux_amd64
           (λ _, Response 200 gzip_magic None) (defaultExecutor "/sdk/go") "1.17.1"
           ["sdk"; "go"] gzip_magic go_archive sdk_state).
  - reflexivity.
  - refine (bool_decide_unpack _ _); vm_compute; exact I.
  - refine (bool_decide_unpack _ _); vm_compute; exact I.
  - refine (bool_decide_unpack _ _); vm_compute; exact I.
  - vm_compute. reflexivity.
  - vm_compute. reflexivity.
  - refine (bool_decide_unpack _ _); vm_compute; exact I.
  - reflexivity.
  - reflexivity.
  - reflexivity.
  - refine (bool_decide_unpack _ _); vm_compute; exact I.
  - refine (bool_decide_unpack _ _); vm_compute; exact I.
  - refine (bool_decide_unpack _ _); vm_compute; exact I.
Defined.



(** A download that is not a gzip stream (the page of a 404 answer, for
    one) makes [Install] panic after it has made the directory of the
    version, in an install root where the process can work and which
    it may read: the empty directory stays, with the mode [0777] less
    the umask, and [list] reports the version as installed. *)
Theorem Install_not_gzip gzip_optional_fields inflate_tar host net
    (e : executor) (version : Version) (root : list string)
    (buf : list Byte.byte) (s : os.state) :
  InstallPath e = os.mkpath true root →
  Forall plain_name root → plain_name version →
  workable s root → listable s root = true →
  os.tree s !! (root ++ [version]) = None →
  dlArchive host net e version = (buf, None) →
  gzip_NewReader gzip_optional_fields buf ≠ None →
  ∃ s1 reason vs,
    Install gzip_optional_fields inflate_tar host net e version s = (s1, Panic reason)
    ∧ os.tree s1
      = <[root ++ [version] := os.Dir (mode_less (os.umask s) os.ModePerm)]> (os.tree s)
    ∧ list_ e s1 = (vs, None) ∧ version ∈ vs.
Proof.
  intros HIP Hroot Hv Hwork _ Hnone Hdl Hgz.
  pose proof (workable_dirs_at s root Hwork) as Hd. destruct Hwork as [_ Hwr].
  set (t1 := <[root ++ [version] := os.Dir (mode_less (os.umask s) os.ModePerm)]> (os.tree s)).
  assert (dirs_at t1 [] root) as Hd1
    by (apply dirs_at_insert; [apply snoc_not_prefix|done]).
  destruct (list_plain e root (os.with_tree s t1) HIP Hroot Hd1) as (vs & Hl & Hres).
  exists (os.with_tree s t1), "invalid memory address or nil pointer dereference", vs.
  split; [|split; [done|split; [done|]]].
  - unfold Install, Version_String. cbv zeta.
    rewrite Hdl, HIP, Join_mkpath_name by done.
    rewrite MkdirAll_fresh_child, create_mode_less by done. unfold unTarGzip.
    by destruct (gzip_NewReader gzip_optional_fields buf).
  - destruct (list_spec e _ vs Hl) as (loc & Hloc & _ & _ & Hmem).
    rewrite Hres in Hloc. injection Hloc as <-.
    apply Hmem. eexists. cbn. unfold t1. by rewrite lookup_insert_eq.
Qed.

Lemma Install_not_gzip_witness :
  ∃ s1 reason vs,
    Install (λ _, None) (λ _, tar_EOF) linux_amd64
      (λ _, Response 404 [Byte.x3c; Byte.x68; Byte.x31; Byte.x3e] None)
      (defaultExecutor "/sdk/go") "0.0.1" sdk_state = (s1, Panic reason)
    ∧ os.tree s1 = <[["sdk"; "go"] ++ ["0.0.1"] := os.Dir 493]> sdk_tree
    ∧ list_ (defaultExecutor "/sdk/go") s1 = (vs, None) ∧ "0.0.1" ∈ vs.
Proof.
  apply (Install_not_gzip (λ _, None) (λ _, tar_EOF) linux_amd64
           (λ _, Response 404 [Byte.x3c; Byte.x68; Byte.x31; Byte.x3e] None)
           (defaultExecutor "/sdk/go") "0.0.1" ["sdk"; "go"]
           [Byte.x3c; Byte.x68; Byte.x31; Byte.x3e] sdk_state).
  - reflexivity.
  - refine (bool_decide_unpack _ _); vm_compute; exact I.
  - refine (bool_decide_unpack _ _); vm_compute; exact I.
  - refine (bool_decide_unpack _ _); vm_compute; exact I.
  - vm_compute. reflexivity.
  - vm_compute. reflexivity.
  - reflexivity.
  - discriminate.
Defined.



(** ** From the command line *)

Lemma children_nil (t t' : gmap (list string) os.node) (dir : list string) :
  (∀ name, t' !! (dir ++ [name]) = t !! (dir ++ [name])) →
  os.children t dir = [] → os.children t' dir = [].
Proof.
  intros Hsame Hnil. destruct (os.children t' dir) as [|[name n] l] eqn:Hc; [done|].
  assert ((name, n) ∈ os.children t' dir) as Hin by (rewrite Hc; left).
  apply elem_of_children in Hin. rewrite Hsame in Hin.
  apply elem_of_children in Hin. rewrite Hnil in Hin. by apply elem_of_nil in Hin.
Qed.

(** [install <arg>], then [use <arg>], then [current], from an install
    root without this version in which the process can work and which
    it may read, with
    [current] absent or removable (a link, a file or an empty
    directory), a umask that leaves the process its own directories and
    an intact archive whose entries can be placed, with directories
    open to the process: each command succeeds, and [current] prints
    the normalised version, which [list] knows as installed. *)
Theorem install_use_current gzip_optional_fields inflate_tar host net fmt_verbs
    (sdkInstallPath arg : string) (version : Version) (root : list string)
    (buf : list Byte.byte) (entries : list entry) (s : os.state) (out : string) :
  sdkInstallPath = os.mkpath true root → Forall plain_name root →
  ParseVersion arg = inr version →
  workable s root → listable s root = true →
  os.permits s (mode_less (os.umask s) os.ModePerm) 192 = true →
  os.tree s !! (root ++ [version]) = None →
  empty_below (root ++ [version]) (os.tree s) →
  removable (os.tree s) (root ++ ["current"]) →
  dlArchive host net (defaultExecutor sdkInstallPath) version = (buf, None) →
  gzip_NewReader gzip_optional_fields buf = None →
  inflate_tar buf = stream_of entries →
  extractable [] entries → dirs_usable s entries →
  ∃ s1 s2 vs,
    installCmd_RunE gzip_optional_fields inflate_tar host net sdkInstallPath [arg] s
    = (s1, Return None)
    ∧ useCmd_RunE sdkInstallPath [arg] s1 = (s2, Return None)
    ∧ currentCmd_RunE fmt_verbs sdkInstallPath [] s2 out = (out +:+ version, None)
    ∧ list_ (defaultExecutor sdkInstallPath) s2 = (vs, None) ∧ version ∈ vs.
Proof.
  intros Hsdk Hroot Hp Hwork _ Hperm Hnone Hempty Hrm Hdl Hgz Htar Hok Hopen.
  pose proof (workable_dirs_at s root Hwork) as Hd.
  set (e := defaultExecutor sdkInstallPath) in *.
  assert (InstallPath e = os.mkpath true root) as HIP by done.
  pose proof (parsed_plain_name arg version Hp) as Hv.
  assert (version ≠ "current") as Hnc.
  { destruct (ParseVersion_chars arg version Hp) as (_ & c & r & -> & Hc).
    intros [= -> _]. done. }
  destruct (Install_fresh gzip_optional_fields inflate_tar host net e version root
              buf entries s) as (t' & Hinst & Hex); try done.
  set (vdir := root ++ [version]) in *. set (cur := root ++ ["current"]) in *.
  assert (∀ k, ¬ vdir `prefix_of` k → t' !! k = os.tree s !! k) as Hout.
  { intros k Hk. rewrite (ex_out _ _ _ _ _ Hex).
    - apply lookup_insert_ne. intros <-. by apply Hk.
    - intros rel _ ->. apply Hk. by apply prefix_app_r. }
  assert (t' !! vdir = Some (os.Dir (mode_less (os.umask s) os.ModePerm))) as Hvdir.
  { rewrite (ex_out _ _ _ _ _ Hex); [by rewrite lookup_insert_eq|].
    intros rel Hne Heq. rewrite <-(app_nil_r vdir) in Heq at 1.
    apply app_inv_head in Heq. by subst. }
  assert (dirs_at t' [] root) as Hd'.
  { intros pre Hpre Hne. destruct (Hd pre Hpre Hne) as [perm Hdirp].
    exists perm. cbn in *. rewrite Hout; [done|].
    intros Hv'. apply (snoc_not_prefix root version). by etrans. }
  assert (∀ k, ¬ vdir `prefix_of` (cur ++ k)) as Hcur.
  { intros k [k' Heq]. unfold vdir, cur in Heq. rewrite <-!app_assoc in Heq.
    apply app_inv_head in Heq. cbn in Heq. by injection Heq as <-. }
  assert (removable t' cur) as Hrm'.
  { unfold removable in *. rewrite <-(app_nil_r cur), Hout, app_nil_r by apply Hcur.
    destruct (os.tree s !! cur) as [[perm| |]|]; try done.
    apply (children_nil (os.tree s)); [|done].
    intros name. apply Hout, Hcur. }
  set (s1 := os.with_tree s t').
  set (s2 := os.with_tree s1
               (<[cur := os.Symlink (os.mkpath true vdir)]> (os.tree s1))).
  assert (Use e version s1 = (s2, None)) as Huse
    by (by apply (Use_installed e root version s1 (mode_less (os.umask s) os.ModePerm))).
  assert (dirs_at (os.tree s2) [] root) as Hd2
    by (apply dirs_at_insert; [apply snoc_not_prefix|done]).
  assert (current e s2 = inr version) as Hcurrent.
  { rewrite (current_linked e root version s2); try done.
    - by apply (ParseVersion_reparse arg).
    - apply lookup_insert_eq. }
  destruct (list_plain e root s2 HIP Hroot Hd2) as (vs & Hl & Hres).
  exists s1, s2, vs. repeat split.
  - unfold installCmd_RunE. rewrite validateArgs_ok by done. cbv zeta.
    by rewrite Hp.
  - unfold useCmd_RunE. rewrite validateArgs_ok by done. cbv zeta.
    fold e. by rewrite Hp, Huse.
  - unfold currentCmd_RunE. rewrite validateArgs_ok by done. cbv zeta.
    fold e. unfold Current. rewrite Hcurrent. unfold Fprintf, Version_String.
    by rewrite (Sprintf_parsed fmt_verbs arg).
  - done.
  - destruct (list_spec e s2 vs Hl) as (loc & Hloc & _ & _ & Hmem).
    rewrite Hres in Hloc. injection Hloc as <-.
    apply Hmem. exists (mode_less (os.umask s) os.ModePerm). cbn.
    rewrite lookup_insert_ne; [done|].
    unfold cur, vdir. intros Heq%app_inv_head. by injection Heq as <-.
Qed.

Lemma install_use_current_witness :
  ∃ s1 s2 vs,
    installCmd_RunE (λ _, None) (λ _, stream_of go_archive) linux_amd64
      (λ _, Response 200 gzip_magic None) "/sdk/go" ["v1.17.1"] sdk_state
    = (s1, Return None)
    ∧ useCmd_RunE "/sdk/go" ["v1.17.1"] s1 = (s2, Return None)
    ∧ currentCmd_RunE (λ _, "%!(NOVERB)") "/sdk/go" [] s2 "" = ("" +:+ "1.17.1", None)
    ∧ list_ (defaultExecutor "/sdk/go") s2 = (vs, None) ∧ "1.17.1" ∈ vs.
Proof.
  apply (install_use_current (λ _, None) (λ _, stream_of go_archive) linux_amd64
           (λ _, Response 200 gzip_magic None) (λ _, "%!(NOVERB)")
           "/sdk/go" "v1.17.1" "1.17.1" ["sdk"; "go"] gzip_magic go_archive
           sdk_state "").
  - reflexivity.
  - refine (bool_decide_unpack _ _); vm_compute; exact I.
  - vm_compute. reflexivity.
  - refine (bool_decide_unpack _ _); vm_compute; exact I.
  - vm_compute. reflexivity.
  - vm_compute. reflexivity.
  - vm_compute. reflexivity.
  - refine (bool_decide_unpack _ _); vm_compute; exact I.
  - vm_compute. exact I.
  - reflexivity.
  - reflexivity.
  - reflexivity.
  - refine (bool_decide_unpack _ _); vm_compute; exact I.
  - refine (bool_decide_unpack _ _); vm_compute; exact I.
Defined.
